(** * BrotliProcessor (src/brotli.js): a shallow embedding and its properties

    The class [BrotliProcessor] wraps the two functions of the [brotli]
    package, [compress] and [decompress], with chunking, a progress
    callback and a record of performance metrics.

    Conventions of the embedding.
    - A [Uint8Array] is a [list byte]; [data.length] is [len data : Z].
    - JavaScript numbers that hold sizes, indices and options are integers
      ([Z]).  Numbers that come out of a division or of the clock are exact
      rationals ([Q]): the quotient of two integers is left unrounded.
    - The processor object, the clock and everything that crosses the
      boundary of the class (codec calls, callback calls, the zero-delay
      timer) live in one [State]; a method is a function from a state to an
      [Outcome] and a new state.
    - An exception is the message of the thrown [Error].
    - A call of the encoder of the [brotli] package hands back a byte
      array, hands back [null] (what it does when the encoding fails), or
      throws; a call of its decoder hands back a byte array or throws; a
      call of the progress callback returns or throws.  A value that may
      be [null] is an [option bytes].
    - A method runs alone: nothing else touches the processor while it is
      suspended at the zero-delay timer.
    - The [for] loop of [streamCompress] does not terminate for every
      [chunkSize], so it is run with fuel; [Diverged] is the outcome of a
      loop that used all of it. *)

From Stdlib Require Import ZArith QArith Qminmax List String Bool Lia.
From Stdlib Require Import Strings.Byte.
Import ListNotations.

Local Open Scope Z_scope.

(** ** Data *)

Definition bytes := list byte.

Definition len {A : Type} (l : list A) : Z := Z.of_nat (List.length l).

(** The object literal [{ mode, quality, lgwin }] handed to the encoder. *)
Record EncodeOptions : Type := mkEncodeOptions {
  enc_mode : Z;
  enc_quality : Z;
  enc_lgwin : Z
}.

(** The [options] argument of [compressWithProgress]: each property is either
    present or [undefined]. *)
Record Options : Type := mkOptions {
  quality : option Z;
  mode : option Z;
  chunkSize : option Z;
  lgwin : option Z
}.

(** [options = {}] *)
Definition noOptions : Options := mkOptions None None None None.

(** [this.performanceMetrics] *)
Record PerformanceMetrics : Type := mkMetrics {
  compressionTime : Q;
  decompressionTime : Q;
  originalSize : Z;
  compressedSize : Z
}.

(** The object returned by [getMetrics]: the four fields spread, plus the
    ratio. *)
Record MetricsSnapshot : Type := mkSnapshot {
  snap_compressionTime : Q;
  snap_decompressionTime : Q;
  snap_originalSize : Z;
  snap_compressedSize : Z;
  compressionRatio : Q
}.

(** What the processor does to the outside, in order. *)
Inductive Event : Type :=
| EvEncode (chunk : bytes) (o : EncodeOptions)   (* brotliCompress(chunk, o) *)
| EvDecode (buffer : bytes)                      (* brotliDecompress(buffer) *)
| EvProgress (progress : Q) (chunkLength : Z)    (* progressCallback(progress, n) *)
| EvYield.                                       (* await new Promise(setTimeout 0) *)

Record State : Type := mkState {
  performanceMetrics : PerformanceMetrics;
  clockReads : nat;             (* calls of performance.now() so far *)
  trace : list Event
}.

(** [constructor()] *)
Definition initialMetrics : PerformanceMetrics := mkMetrics 0%Q 0%Q 0 0.

Definition newProcessor : State := mkState initialMetrics 0%nat [].

(** ** Outcomes and the monad of methods *)

Inductive Outcome (A : Type) : Type :=
| Returned (a : A)
| Thrown (message : string)
| Diverged.

Arguments Returned {A} a.
Arguments Thrown {A} message.
Arguments Diverged {A}.

Definition M (A : Type) : Type := State -> Outcome A * State.

Definition ret {A} (a : A) : M A := fun s => (Returned a, s).

Definition bind {A B} (m : M A) (k : A -> M B) : M B :=
  fun s =>
    match m s with
    | (Returned a, s') => k a s'
    | (Thrown msg, s') => (Thrown msg, s')
    | (Diverged, s') => (Diverged, s')
    end.

Definition throw {A} (msg : string) : M A := fun s => (Thrown msg, s).

Definition diverge {A} : M A := fun s => (Diverged, s).

(** [try { body } catch (error) { handler(error.message) }] *)
Definition tryCatch {A} (body : M A) (handler : string -> M A) : M A :=
  fun s =>
    match body s with
    | (Thrown msg, s') => handler msg s'
    | r => r
    end.

Definition emit (e : Event) : M unit :=
  fun s => (Returned tt,
            mkState (performanceMetrics s) (clockReads s) (trace s ++ [e])).

Definition setMetrics (f : PerformanceMetrics -> PerformanceMetrics) : M unit :=
  fun s => (Returned tt,
            mkState (f (performanceMetrics s)) (clockReads s) (trace s)).

Declare Scope js_scope.
Delimit Scope js_scope with js.
Notation "x <- m ;; k" := (bind m (fun x => k))
  (at level 61, m at next level, right associativity) : js_scope.
Notation "m ;;; k" := (bind m (fun _ => k))
  (at level 61, right associativity) : js_scope.

(** ** Array primitives *)

(** The relative index of [%TypedArray%.prototype.slice]: a negative
    argument counts from the end, and the result is clamped to [0, n]. *)
Definition relativeIndex (n x : Z) : Z :=
  if x <? 0 then Z.max (n + x) 0 else Z.min x n.

(** The half-open range of positions that [slice(start, stop)] copies from an
    array of length [n]. *)
Definition sliceRange (n start stop : Z) : Z * Z :=
  let k := relativeIndex n start in
  let final := relativeIndex n stop in
  (k, k + Z.max (final - k) 0).

(** The elements at the positions [lo, hi). *)
Definition sublist {A} (r : Z * Z) (l : list A) : list A :=
  firstn (Z.to_nat (snd r - fst r)) (skipn (Z.to_nat (fst r)) l).

(** [data.slice(start, stop)] *)
Definition slice (data : bytes) (start stop : Z) : bytes :=
  sublist (sliceRange (len data) start stop) data.

(** [new Uint8Array(n)] *)
Definition newUint8Array (n : Z) : bytes := repeat x00 (Z.to_nat n).

(** [target.set(source, offset)]: [None] is the [RangeError] of a source that
    does not fit. *)
Definition typedArraySet (target source : bytes) (offset : Z) : option bytes :=
  if len source + offset <=? len target then
    Some (firstn (Z.to_nat offset) target ++ source
            ++ skipn (Z.to_nat (offset + len source)) target)
  else None.

(** The message of the [TypeError] raised by [x.length] when [x] is
    [null]. *)
Definition nullLengthError : string :=
  "Cannot read properties of null (reading 'length')".

(** [chunks.reduce((sum, chunk) => sum + chunk.length, sum)]: [None] is the
    [TypeError] of a chunk that is [null]. *)
Fixpoint totalLength (chunks : list (option bytes)) (sum : Z) : option Z :=
  match chunks with
  | [] => Some sum
  | Some chunk :: rest => totalLength rest (sum + len chunk)
  | None :: _ => None
  end.

(** The copy loop at the end of [streamCompress], from [offset] on; [None]
    is an error thrown by [result.set]. *)
Fixpoint copyChunks (chunks : list (option bytes)) (result : bytes)
    (offset : Z) : option bytes :=
  match chunks with
  | [] => Some result
  | Some chunk :: rest =>
      match typedArraySet result chunk offset with
      | Some result' => copyChunks rest result' (offset + len chunk)
      | None => None
      end
  | None :: _ => None
  end.

(** ** The processor *)

(** What a call of the encoder can do: hand back a byte array, throw an
    [Error] with a message, or hand back [null]. *)
Inductive CodecResult : Type :=
| CodecOk (output : bytes)
| CodecError (message : string)
| CodecNull.

(** What a call of the decoder can do: hand back a byte array, or throw an
    [Error] with a message. *)
Inductive DecodeResult : Type :=
| DecodeOk (output : bytes)
| DecodeError (message : string).

(** A progress callback: it is called with the fraction and the size of the
    last compressed chunk, and either returns ([None]) or throws. *)
Definition Callback : Type := Q -> Z -> option string.

(** [x === undefined ? d : x], the default of a destructured property. *)
Definition withDefault (d : Z) (x : option Z) : Z :=
  match x with Some v => v | None => d end.

(** Truthiness of an integer. *)
Definition truthy (x : Z) : bool := negb (x =? 0).

(** [x || d] *)
Definition orElse (x d : Z) : Z := if truthy x then x else d.

Definition setCompressionTime (t : Q) (m : PerformanceMetrics) :=
  mkMetrics t (decompressionTime m) (originalSize m) (compressedSize m).

Definition setDecompressionTime (t : Q) (m : PerformanceMetrics) :=
  mkMetrics (compressionTime m) t (originalSize m) (compressedSize m).

Definition setOriginalSize (n : Z) (m : PerformanceMetrics) :=
  mkMetrics (compressionTime m) (decompressionTime m) n (compressedSize m).

Definition setCompressedSize (n : Z) (m : PerformanceMetrics) :=
  mkMetrics (compressionTime m) (decompressionTime m) (originalSize m) n.

Section Processor.

(** The two imports of line 1, and the readings of [performance.now()] in
    the order they are made. *)
Variable brotliCompress : bytes -> EncodeOptions -> CodecResult.
Variable brotliDecompress : bytes -> DecodeResult.
Variable clock : nat -> Q.

Local Open Scope js_scope.

Definition performance_now : M Q :=
  fun s => (Returned (clock (clockReads s)),
            mkState (performanceMetrics s) (S (clockReads s)) (trace s)).

Definition callCompress (chunk : bytes) (o : EncodeOptions)
  : M (option bytes) :=
  emit (EvEncode chunk o) ;;;
  match brotliCompress chunk o with
  | CodecOk output => ret (Some output)
  | CodecError msg => throw msg
  | CodecNull => ret None
  end.

Definition callDecompress (buffer : bytes) : M bytes :=
  emit (EvDecode buffer) ;;;
  match brotliDecompress buffer with
  | DecodeOk output => ret output
  | DecodeError msg => throw msg
  end.

(** [x.length] *)
Definition lengthOf (x : option bytes) : M Z :=
  match x with
  | Some b => ret (len b)
  | None => throw nullLengthError
  end.

Definition callProgress (f : Callback) (progress : Q) (n : Z) : M unit :=
  emit (EvProgress progress n) ;;;
  match f progress n with
  | None => ret tt
  | Some msg => throw msg
  end.

(** One pass through the body of the [for] loop of [streamCompress]
    (lines 43-55) at index [i]; the result is [chunks] after the push. *)
Definition streamStep (data : bytes) (quality mode chunkSize lgwin : Z)
    (progressCallback : option Callback) (i : Z)
    (chunks : list (option bytes)) : M (list (option bytes)) :=
  let chunk := slice data i (i + chunkSize) in
  compressedChunk <-
    callCompress chunk (mkEncodeOptions mode quality lgwin) ;;
  let chunks := (chunks ++ [compressedChunk])%list in
  match progressCallback with
  | Some f =>
      let progress :=
        Qmin (inject_Z (i + chunkSize) / inject_Z (len data)) 1 in
      n <- lengthOf compressedChunk ;;
      callProgress f progress n
  | None => ret tt
  end ;;;
  emit EvYield ;;;
  ret chunks.

(** The loop itself, [for (let i = 0; i < data.length; i += chunkSize)],
    entered at its test with the chunks pushed so far. *)
Fixpoint streamLoop (fuel : nat) (data : bytes) (quality mode chunkSize lgwin : Z)
    (progressCallback : option Callback) (i : Z)
    (chunks : list (option bytes)) : M (list (option bytes)) :=
  match fuel with
  | O => diverge
  | S fuel' =>
      if i <? len data then
        chunks' <- streamStep data quality mode chunkSize lgwin
                     progressCallback i chunks ;;
        streamLoop fuel' data quality mode chunkSize lgwin progressCallback
          (i + chunkSize) chunks'
      else ret chunks
  end.

Definition streamCompress (fuel : nat) (data : bytes)
    (quality mode chunkSize lgwin : Z) (progressCallback : option Callback)
  : M bytes :=
  chunks <- streamLoop fuel data quality mode chunkSize lgwin
              progressCallback 0 [] ;;
  match totalLength chunks 0 with
  | Some total =>
      match copyChunks chunks (newUint8Array total) 0 with
      | Some result => ret result
      | None => throw "offset is out of bounds"
      end
  | None => throw nullLengthError
  end.

Definition compressWithProgress (fuel : nat) (data : bytes)
    (options : Options) (progressCallback : option Callback) : M bytes :=
  let quality := withDefault 6 (quality options) in
  let mode := withDefault 0 (mode options) in
  let chunkSize := withDefault (1024 * 1024) (chunkSize options) in
  let lgwin := withDefault 22 (lgwin options) in
  startTime <- performance_now ;;
  tryCatch
    (compressedData <-
       (if truthy chunkSize && (len data >? chunkSize) then
          result <- streamCompress fuel data quality mode chunkSize lgwin
                      progressCallback ;;
          ret (Some result)
        else
          callCompress data (mkEncodeOptions mode quality lgwin)) ;;
     now <- performance_now ;;
     setMetrics (setCompressionTime (now - startTime)%Q) ;;;
     setMetrics (setOriginalSize (len data)) ;;;
     match compressedData with
     | Some compressedBytes =>
         setMetrics (setCompressedSize (len compressedBytes)) ;;;
         ret compressedBytes
     | None => throw nullLengthError   (* compressedData.length, line 32 *)
     end)
    (fun message => throw ("Compression failed: " ++ message)%string).

Definition decompress (compressedData : bytes) : M bytes :=
  startTime <- performance_now ;;
  tryCatch
    (decompressedData <- callDecompress compressedData ;;
     now <- performance_now ;;
     setMetrics (setDecompressionTime (now - startTime)%Q) ;;;
     ret decompressedData)
    (fun message => throw ("Decompression failed: " ++ message)%string).

End Processor.

(** [getMetrics()] reads the processor and calls nothing. *)
Definition getMetrics (s : State) : MetricsSnapshot :=
  let m := performanceMetrics s in
  mkSnapshot (compressionTime m) (decompressionTime m)
    (originalSize m) (compressedSize m)
    (inject_Z (originalSize m) / inject_Z (orElse (compressedSize m) 1))%Q.

(** ** Reading a run *)

(** [s] with some events added to its trace and nothing else changed. *)
Definition addEvents (evs : list Event) (s : State) : State :=
  mkState (performanceMetrics s) (clockReads s) (trace s ++ evs).

(** The state after one reading of the clock. *)
Definition tick (s : State) : State :=
  mkState (performanceMetrics s) (S (clockReads s)) (trace s).

(** The events a run from [s] to [s'] added to the trace. *)
Definition emitted (s s' : State) : list Event :=
  skipn (List.length (trace s)) (trace s').

(** The calls of [brotliCompress] among some events, in order. *)
Definition encodeCalls (evs : list Event) : list (bytes * EncodeOptions) :=
  flat_map (fun e => match e with EvEncode c o => [(c, o)] | _ => [] end) evs.

(** The calls of the progress callback among some events, in order. *)
Definition progressCalls (evs : list Event) : list (Q * Z) :=
  flat_map (fun e => match e with EvProgress p n => [(p, n)] | _ => [] end) evs.

(** The outcome of one call of the encoder or of the decoder, as the
    caller sees it. *)
Definition encodeOutcome (r : CodecResult) : Outcome (option bytes) :=
  match r with
  | CodecOk output => Returned (Some output)
  | CodecError msg => Thrown msg
  | CodecNull => Returned None
  end.

Definition decodeOutcome (r : DecodeResult) : Outcome bytes :=
  match r with
  | DecodeOk output => Returned output
  | DecodeError msg => Thrown msg
  end.

(** The byte arrays of a list that holds no [null]. *)
Fixpoint allBytes (chunks : list (option bytes)) : option (list bytes) :=
  match chunks with
  | [] => Some []
  | Some chunk :: rest =>
      match allBytes rest with
      | Some l => Some (chunk :: l)
      | None => None
      end
  | None :: _ => None
  end.

(** *** The options after line 14 *)

Definition encodeOptionsOf (options : Options) : EncodeOptions :=
  mkEncodeOptions (withDefault 0 (mode options))
                  (withDefault 6 (quality options))
                  (withDefault 22 (lgwin options)).

Definition effectiveChunkSize (options : Options) : Z :=
  withDefault (1024 * 1024) (chunkSize options).

(** [{ ...options, chunkSize: c }] *)
Definition withChunkSize (c : Z) (options : Options) : Options :=
  mkOptions (quality options) (mode options) (Some c) (lgwin options).

(** The test of line 20. *)
Definition takesChunkedPath (data : bytes) (options : Options) : bool :=
  truthy (effectiveChunkSize options)
  && (len data >? effectiveChunkSize options).

(** The ranges the documentation gives for the options. *)
Definition validEncodeOptions (o : EncodeOptions) : bool :=
  (0 <=? enc_quality o) && (enc_quality o <=? 11)
  && (0 <=? enc_mode o) && (enc_mode o <=? 2)
  && (10 <=? enc_lgwin o) && (enc_lgwin o <=? 24).

Definition validConfig (options : Options) : bool :=
  validEncodeOptions (encodeOptionsOf options)
  && (0 <? effectiveChunkSize options).

Definition quality12 : Options := mkOptions (Some 12) None None None.
Definition windowBits25 : Options := mkOptions None None None (Some 25).
Definition chunkSize0 : Options := mkOptions None None (Some 0) None.

(** *** The loop of [streamCompress] *)

(** The values of [i] at which the body of
    [for (let i = start; i < n; i += chunkSize)] runs, at most [fuel] of
    them. *)
Fixpoint loopIndices (fuel : nat) (n chunkSize i : Z) : list Z :=
  match fuel with
  | O => []
  | S fuel' =>
      if i <? n then i :: loopIndices fuel' n chunkSize (i + chunkSize)
      else []
  end.

(** The indices of the loop of [streamCompress] on an input of length [n];
    [n] passes are enough when the index moves forward. *)
Definition chunkStarts (n chunkSize : Z) : list Z :=
  loopIndices (Z.to_nat n) n chunkSize 0.

(** The ranges that [streamCompress] slices out of an input of length [n]:
    one [slice(i, i + chunkSize)] per pass. *)
Definition chunkRanges (n chunkSize : Z) : list (Z * Z) :=
  map (fun i => sliceRange n i (i + chunkSize)) (chunkStarts n chunkSize).

(** [ceil(n / chunkSize)] *)
Definition chunkCount (n chunkSize : Z) : Z := (n + chunkSize - 1) / chunkSize.

Section Passes.

Variable brotliCompress : bytes -> EncodeOptions -> CodecResult.
Variable data : bytes.
Variables quality mode chunkSize lgwin : Z.
Variable progressCallback : option Callback.

(** The chunk sliced at index [i], what the encoder makes of it, and the
    fraction reported after it. *)
Definition chunkAt (i : Z) : bytes := slice data i (i + chunkSize).

Definition compressedAt (i : Z) : bytes :=
  match brotliCompress (chunkAt i) (mkEncodeOptions mode quality lgwin) with
  | CodecOk output => output
  | CodecError _ | CodecNull => []
  end.

(** What line 49 pushes at index [i] when the encoder does not throw. *)
Definition pushedAt (i : Z) : option bytes :=
  match brotliCompress (chunkAt i) (mkEncodeOptions mode quality lgwin) with
  | CodecOk output => Some output
  | CodecError _ | CodecNull => None
  end.

Definition progressAt (i : Z) : Q :=
  Qmin (inject_Z (i + chunkSize) / inject_Z (len data)) 1.

(** The events of a pass at index [i] that runs to its end. *)
Definition passEvents (i : Z) : list Event :=
  EvEncode (chunkAt i) (mkEncodeOptions mode quality lgwin)
    :: match progressCallback with
       | Some _ => [EvProgress (progressAt i) (len (compressedAt i))]
       | None => []
       end
    ++ [EvYield].

End Passes.

(** Lines 30-32 applied to the state [s] in which the codec work ended. *)
Definition recordCompression (clock : nat -> Q) (startTime : Q)
    (data compressedData : bytes) (s : State) : State :=
  mkState (mkMetrics (clock (clockReads s) - startTime)%Q
             (decompressionTime (performanceMetrics s))
             (len data) (len compressedData))
          (S (clockReads s)) (trace s).

(** Line 72. *)
Definition recordDecompression (clock : nat -> Q) (startTime : Q) (s : State)
  : State :=
  mkState (setDecompressionTime (clock (clockReads s) - startTime)%Q
             (performanceMetrics s))
          (S (clockReads s)) (trace s).

(** Lines 30-31 applied to the state [s] in which the codec work ended:
    what is written when line 32 throws. *)
Definition recordNullFailure (clock : nat -> Q) (startTime : Q)
    (data : bytes) (s : State) : State :=
  mkState (mkMetrics (clock (clockReads s) - startTime)%Q
             (decompressionTime (performanceMetrics s))
             (len data) (compressedSize (performanceMetrics s)))
          (S (clockReads s)) (trace s).

(** The codec work of lines 20-28. *)
Definition codecWork (brotliCompress : bytes -> EncodeOptions -> CodecResult)
    (fuel : nat) (data : bytes) (options : Options)
    (progressCallback : option Callback) : M (option bytes) :=
  if takesChunkedPath data options then
    bind (streamCompress brotliCompress fuel data
            (withDefault 6 (quality options)) (withDefault 0 (mode options))
            (effectiveChunkSize options) (withDefault 22 (lgwin options))
            progressCallback)
         (fun result => ret (Some result))
  else callCompress brotliCompress data (encodeOptionsOf options).

(** A call is forwarded to the codec when the first thing it does is an
    encoder call with the options as given, and when the only error it can
    end with is the wrapped one of line 36. *)
Definition forwardedToCodec
    (brotliCompress : bytes -> EncodeOptions -> CodecResult) (clock : nat -> Q)
    (fuel : nat) (data : bytes) (options : Options)
    (progressCallback : option Callback) (s : State) : Prop :=
  (exists chunk rest,
      emitted s (snd (compressWithProgress brotliCompress clock fuel data
                        options progressCallback s))
      = EvEncode chunk (encodeOptionsOf options) :: rest)
  /\ (forall msg,
         fst (compressWithProgress brotliCompress clock fuel data options
                progressCallback s) = Thrown msg ->
         exists cause, msg = ("Compression failed: " ++ cause)%string).

(** ** Sample codecs, used to run the processor on concrete inputs *)

(** A codec that stores its input behind a one-byte header. *)
Definition storeCompress (data : bytes) (o : EncodeOptions) : CodecResult :=
  CodecOk (x01 :: data).

Definition storeDecompress (buffer : bytes) : DecodeResult :=
  match buffer with
  | x01 :: data => DecodeOk data
  | _ => DecodeError "bad header"
  end.

(** The same encoder, except that it refuses an input that starts with
    [0xff]. *)
Definition pickyCompress (data : bytes) (o : EncodeOptions) : CodecResult :=
  match data with
  | xff :: _ => CodecError "refused"
  | _ => CodecOk (x01 :: data)
  end.

(** The storing encoder, except that it hands back [null] for an input that
    starts with [0xff]. *)
Definition nullingCompress (data : bytes) (o : EncodeOptions) : CodecResult :=
  match data with
  | xff :: _ => CodecNull
  | _ => CodecOk (x01 :: data)
  end.

(** A clock that advances by 5/2 ms between two readings. *)
Definition sampleClock (k : nat) : Q := (5 # 2) * inject_Z (Z.of_nat k).

(** A callback that only listens. *)
Definition listen : Callback := fun _ _ => None.

(** A callback that throws once half of the input is done. *)
Definition impatient : Callback :=
  fun progress _ => if Qle_bool (1 # 2) progress then Some "enough"%string else None.

(** ** The events of one pass *)

(** [e] is an event of the pass at index [i]: the encoder got the chunk at
    [i]; the callback, which was called because the encoder accepted that
    chunk, got the fraction at [i] and the size of the output. *)
Definition eventOfPass
    (brotliCompress : bytes -> EncodeOptions -> CodecResult) (data : bytes)
    (quality mode chunkSize lgwin : Z) (progressCallback : option Callback)
    (i : Z) (e : Event) : Prop :=
  match e with
  | EvEncode c o =>
      c = chunkAt data chunkSize i /\ o = mkEncodeOptions mode quality lgwin
  | EvProgress p k =>
      progressCallback <> None
      /\ p = progressAt data chunkSize i
      /\ k = len (compressedAt brotliCompress data quality mode chunkSize
                    lgwin i)
      /\ brotliCompress (chunkAt data chunkSize i)
           (mkEncodeOptions mode quality lgwin)
         = CodecOk (compressedAt brotliCompress data quality mode chunkSize
                      lgwin i)
  | EvYield => True
  | EvDecode _ => False
  end.

(** ** States a processor can be in *)

(** The states reached from a new processor by calls of
    [compressWithProgress] and [decompress], however the calls end. *)
Inductive reachable
    (brotliCompress : bytes -> EncodeOptions -> CodecResult)
    (brotliDecompress : bytes -> DecodeResult) (clock : nat -> Q)
  : State -> Prop :=
| reach_new : reachable brotliCompress brotliDecompress clock newProcessor
| reach_compress (s : State) (fuel : nat) (data : bytes) (options : Options)
    (progressCallback : option Callback) :
    reachable brotliCompress brotliDecompress clock s ->
    reachable brotliCompress brotliDecompress clock
      (snd (compressWithProgress brotliCompress clock fuel data options
              progressCallback s))
| reach_decompress (s : State) (compressedData : bytes) :
    reachable brotliCompress brotliDecompress clock s ->
    reachable brotliCompress brotliDecompress clock
      (snd (decompress brotliDecompress clock compressedData s)).

(** ** The example driver (lines 88-121) *)

(** What the driver writes to the console.  A line carries the values that
    are printed, not their formatting. *)
Inductive ConsoleLine : Type :=
| LogProgress (percent : Q) (chunkSize : Z)   (* line 99 *)
| LogMetrics (metrics : MetricsSnapshot)      (* line 109 *)
| LogVerification (isValid : bool)            (* line 114 *)
| LogError (message : string).                (* line 117, console.error *)

(** [l.every(p)], entered at index [i]. *)
Fixpoint every {A} (p : A -> nat -> bool) (l : list A) (i : nat) : bool :=
  match l with
  | [] => true
  | x :: rest => p x i && every p rest (S i)
  end.

(** [decompressedData.every((byte, i) => byte === sampleData[i])]; past the
    end of [sampleData] the right-hand side is [undefined]. *)
Definition verifies (decompressedData sampleData : bytes) : bool :=
  every (fun byte i =>
           match nth_error sampleData i with
           | Some b => Byte.eqb byte b
           | None => false
           end) decompressedData 0.

(** The options of lines 102-107. *)
Definition exampleOptions : Options :=
  mkOptions (Some 9) (Some 1) (Some (512 * 1024)) (Some 22).

(** The callback of lines 98-100 prints a line and returns. *)
Definition exampleCallback : Callback := fun _ _ => None.

(** The lines it has printed in a run that led to [s]: one per call. *)
Definition progressLines (s : State) : list ConsoleLine :=
  map (fun call => LogProgress (fst call * 100) (snd call))
      (progressCalls (trace s)).

(** [runBrotliExample()], with the random buffer of lines 92-96 as
    [sampleData].  It builds its own processor; the result is the outcome,
    the processor at the end and the console. *)
Definition runBrotliExample
    (brotliCompress : bytes -> EncodeOptions -> CodecResult)
    (brotliDecompress : bytes -> DecodeResult) (clock : nat -> Q)
    (fuel : nat) (sampleData : bytes)
  : Outcome unit * State * list ConsoleLine :=
  match compressWithProgress brotliCompress clock fuel sampleData
          exampleOptions (Some exampleCallback) newProcessor with
  | (Returned compressedData, s1) =>
      let console := progressLines s1 ++ [LogMetrics (getMetrics s1)] in
      match decompress brotliDecompress clock compressedData s1 with
      | (Returned decompressedData, s2) =>
          (Returned tt, s2,
           console ++ [LogVerification (verifies decompressedData sampleData)])
      | (Thrown message, s2) =>
          (Returned tt, s2, console ++ [LogError message])
      | (Diverged, s2) => (Diverged, s2, console)
      end
  | (Thrown message, s1) =>
      (Returned tt, s1, progressLines s1 ++ [LogError message])
  | (Diverged, s1) => (Diverged, s1, progressLines s1)
  end.

(** * Properties *)

(** ** Arrays *)

Lemma len_app {A} (l1 l2 : list A) : len (l1 ++ l2) = len l1 + len l2.
Proof. unfold len. rewrite length_app. lia. Qed.

Lemma len_nonneg {A} (l : list A) : 0 <= len l.
Proof. unfold len. lia. Qed.

Lemma len_cons {A} (a : A) (l : list A) : len (a :: l) = 1 + len l.
Proof. unfold len. simpl List.length. lia. Qed.

Lemma allBytes_map_Some (l : list bytes) : allBytes (map Some l) = Some l.
Proof.
  induction l as [|x l IH]; [reflexivity |]. simpl. now rewrite IH.
Qed.

Lemma allBytes_Some (chunks : list (option bytes)) :
  forall l, allBytes chunks = Some l -> chunks = map Some l.
Proof.
  induction chunks as [|[c|] chunks IH]; intros l H; simpl in H.
  - inversion H. reflexivity.
  - destruct (allBytes chunks) as [l'|]; [| discriminate].
    inversion H; subst. simpl. f_equal. apply IH. reflexivity.
  - discriminate.
Qed.

Lemma allBytes_app (c1 c2 : list (option bytes)) :
  allBytes (c1 ++ c2)
  = match allBytes c1, allBytes c2 with
    | Some l1, Some l2 => Some (l1 ++ l2)
    | _, _ => None
    end.
Proof.
  induction c1 as [|[c|] c1 IH]; simpl.
  - destruct (allBytes c2); reflexivity.
  - rewrite IH. destruct (allBytes c1), (allBytes c2); reflexivity.
  - reflexivity.
Qed.

Lemma allBytes_null (chunks : list (option bytes)) :
  In None chunks -> allBytes chunks = None.
Proof.
  induction chunks as [|[c|] chunks IH]; simpl; intro H.
  - destruct H.
  - destruct H as [H|H]; [discriminate |]. now rewrite IH.
  - reflexivity.
Qed.

Lemma totalLength_allBytes (chunks : list (option bytes)) :
  forall sum,
    totalLength chunks sum
    = match allBytes chunks with
      | Some l => Some (sum + len (List.concat l))
      | None => None
      end.
Proof.
  induction chunks as [|[c|] chunks IH]; intro sum; simpl.
  - unfold len. simpl. f_equal. lia.
  - rewrite IH. destruct (allBytes chunks); [| reflexivity].
    simpl. rewrite len_app. f_equal. lia.
  - reflexivity.
Qed.

Lemma typedArraySet_fits (done rest source : bytes) :
  len source <= len rest ->
  typedArraySet (done ++ rest) source (len done)
  = Some ((done ++ source) ++ skipn (Z.to_nat (len source)) rest).
Proof.
  intro Hfit. unfold typedArraySet.
  rewrite len_app.
  destruct (len source + len done <=? len done + len rest) eqn:E;
    [| apply Z.leb_gt in E; lia].
  f_equal. unfold len in *.
  rewrite Nat2Z.id, <- Nat2Z.inj_add, Nat2Z.id.
  rewrite firstn_app, firstn_all, Nat.sub_diag, firstn_O, app_nil_r.
  rewrite skipn_app, Nat2Z.id.
  replace (List.length done + List.length source - List.length done)%nat
    with (List.length source) by lia.
  rewrite (skipn_all2 done) by lia.
  simpl. now rewrite <- app_assoc.
Qed.

Lemma copyChunks_concat (chunks : list bytes) :
  forall done rest : bytes,
    len rest = len (List.concat chunks) ->
    copyChunks (map Some chunks) (done ++ rest) (len done)
    = Some (done ++ List.concat chunks).
Proof.
  induction chunks as [|c cs IH]; intros done rest Hlen.
  - destruct rest as [|b rest]; [reflexivity |].
    unfold len in Hlen. simpl in Hlen. lia.
  - simpl List.concat in *. simpl copyChunks.
    rewrite len_app in Hlen. pose proof (len_nonneg (List.concat cs)).
    rewrite typedArraySet_fits by lia.
    rewrite <- len_app. rewrite IH.
    + now rewrite <- app_assoc.
    + unfold len in *. rewrite length_skipn. lia.
Qed.

(** The end of [streamCompress] (lines 57-65): the reduce throws on a
    [null] chunk; otherwise the buffer that is built is the concatenation
    of the chunks, and the copy never leaves the buffer. *)
Lemma assemble_concat (chunks : list (option bytes)) :
  match totalLength chunks 0 with
  | Some total => copyChunks chunks (newUint8Array total) 0
  | None => None
  end
  = match allBytes chunks with
    | Some l => Some (List.concat l)
    | None => None
    end.
Proof.
  rewrite totalLength_allBytes.
  destruct (allBytes chunks) as [l|] eqn:E; [| reflexivity].
  apply allBytes_Some in E. subst chunks.
  change (newUint8Array (0 + len (List.concat l)))
    with ([] ++ newUint8Array (0 + len (List.concat l))).
  change 0 with (len (@nil byte)) at 2.
  rewrite copyChunks_concat; [reflexivity |].
  unfold newUint8Array, len at 1. rewrite repeat_length.
  unfold len. lia.
Qed.

(** ** Runs of the processor *)

Lemma emitted_addEvents (evs : list Event) (s : State) :
  emitted s (addEvents evs s) = evs.
Proof.
  unfold emitted, addEvents; simpl.
  rewrite skipn_app, skipn_all, Nat.sub_diag. reflexivity.
Qed.

Lemma addEvents_nil (s : State) : addEvents [] s = s.
Proof. destruct s. unfold addEvents; simpl. now rewrite app_nil_r. Qed.

Lemma addEvents_addEvents (e1 e2 : list Event) (s : State) :
  addEvents e2 (addEvents e1 s) = addEvents (e1 ++ e2) s.
Proof. unfold addEvents; simpl. now rewrite app_assoc. Qed.

Lemma encodeCalls_app (e1 e2 : list Event) :
  encodeCalls (e1 ++ e2) = encodeCalls e1 ++ encodeCalls e2.
Proof. apply flat_map_app. Qed.

Lemma progressCalls_app (e1 e2 : list Event) :
  progressCalls (e1 ++ e2) = progressCalls e1 ++ progressCalls e2.
Proof. apply flat_map_app. Qed.

Ltac unfold_run :=
  unfold bind, ret, throw, diverge, tryCatch, emit, setMetrics.

Lemma in_encodeCalls (evs : list Event) (c : bytes) (o : EncodeOptions) :
  In (c, o) (encodeCalls evs) <-> In (EvEncode c o) evs.
Proof.
  unfold encodeCalls. rewrite in_flat_map. split.
  - intros (e & He & Hin). destruct e; simpl in Hin; try tauto.
    destruct Hin as [H|[]]. inversion H; subst. exact He.
  - intro H. exists (EvEncode c o). split; [exact H | left; reflexivity].
Qed.

Lemma in_progressCalls (evs : list Event) (p : Q) (k : Z) :
  In (p, k) (progressCalls evs) <-> In (EvProgress p k) evs.
Proof.
  unfold progressCalls. rewrite in_flat_map. split.
  - intros (e & He & Hin). destruct e; simpl in Hin; try tauto.
    destruct Hin as [H|[]]. inversion H; subst. exact He.
  - intro H. exists (EvProgress p k). split; [exact H | left; reflexivity].
Qed.

Section Runs.

Variable brotliCompress : bytes -> EncodeOptions -> CodecResult.
Variable brotliDecompress : bytes -> DecodeResult.
Variable clock : nat -> Q.

Lemma callCompress_run (chunk : bytes) (o : EncodeOptions) (s : State) :
  callCompress brotliCompress chunk o s
  = (encodeOutcome (brotliCompress chunk o), addEvents [EvEncode chunk o] s).
Proof.
  unfold callCompress. unfold_run.
  destruct (brotliCompress chunk o); reflexivity.
Qed.

Lemma callDecompress_run (buffer : bytes) (s : State) :
  callDecompress brotliDecompress buffer s
  = (decodeOutcome (brotliDecompress buffer), addEvents [EvDecode buffer] s).
Proof.
  unfold callDecompress. unfold_run.
  destruct (brotliDecompress buffer); reflexivity.
Qed.

Section Stream.

Variable data : bytes.
Variables quality mode chunkSize lgwin : Z.
Variable progressCallback : option Callback.

Local Abbreviation o := (mkEncodeOptions mode quality lgwin).
Local Abbreviation chunkOf := (chunkAt data chunkSize).
Local Abbreviation outputOf :=
  (compressedAt brotliCompress data quality mode chunkSize lgwin).
Local Abbreviation pushedOf :=
  (pushedAt brotliCompress data quality mode chunkSize lgwin).
Local Abbreviation fractionOf := (progressAt data chunkSize).
Local Abbreviation passOf :=
  (passEvents brotliCompress data quality mode chunkSize lgwin
     progressCallback).

(** A pass is one encoder call.  It stops at an encoder that throws, at
    the [.length] of a [null] when there is a callback, or at a callback
    that throws; otherwise it runs to its end, and what it pushes is the
    output or the [null] of the encoder. *)
Lemma streamStep_run (i : Z) (chunks : list (option bytes)) (s : State) :
  streamStep brotliCompress data quality mode chunkSize lgwin
    progressCallback i chunks s
  = match brotliCompress (chunkOf i) o with
    | CodecError msg => (Thrown msg, addEvents [EvEncode (chunkOf i) o] s)
    | CodecOk output =>
        match progressCallback with
        | Some f =>
            match f (fractionOf i) (len output) with
            | Some msg =>
                (Thrown msg,
                 addEvents [EvEncode (chunkOf i) o;
                            EvProgress (fractionOf i) (len output)] s)
            | None =>
                (Returned (chunks ++ [Some output]), addEvents (passOf i) s)
            end
        | None =>
            (Returned (chunks ++ [Some output]), addEvents (passOf i) s)
        end
    | CodecNull =>
        match progressCallback with
        | Some _ =>
            (Thrown nullLengthError, addEvents [EvEncode (chunkOf i) o] s)
        | None => (Returned (chunks ++ [None]), addEvents (passOf i) s)
        end
    end.
Proof.
  unfold streamStep, passEvents, compressedAt, callProgress, lengthOf.
  unfold bind at 1. rewrite callCompress_run. fold (chunkOf i).
  destruct (brotliCompress (chunkOf i) o) as [output|msg|]; simpl;
    [| reflexivity |].
  - destruct progressCallback as [f|]; unfold_run; simpl.
    + fold (fractionOf i).
      destruct (f (fractionOf i) (len output)); unfold addEvents; simpl;
        rewrite <- ?app_assoc; reflexivity.
    + unfold addEvents; simpl; rewrite <- ?app_assoc; reflexivity.
  - destruct progressCallback as [f|]; unfold_run; simpl.
    + reflexivity.
    + unfold addEvents; simpl; rewrite <- ?app_assoc; reflexivity.
Qed.

Lemma encodeCalls_passEvents (i : Z) :
  encodeCalls (passOf i) = [(chunkOf i, o)].
Proof.
  unfold passEvents. destruct progressCallback; reflexivity.
Qed.

Lemma encode_in_pass (i : Z) (c : bytes) (o' : EncodeOptions) :
  In (EvEncode c o') (passOf i) -> c = chunkOf i /\ o' = o.
Proof.
  intro H. apply in_encodeCalls in H.
  rewrite encodeCalls_passEvents in H. destruct H as [H|[]].
  inversion H. auto.
Qed.

(** Whatever the fuel and the chunk size, the loop only adds events to the
    trace and only adds to the chunks.  An encoder call that throws ends it
    with the encoder's error.  After an encoder call that handed back
    [null] the loop ends with the [TypeError] of line 53 when there is a
    callback, and when it returns there is a [null] among the chunks. *)
Lemma streamLoop_frame (fuel : nat) :
  forall (i : Z) (chunks : list (option bytes)) (s : State),
  exists evs,
    snd (streamLoop brotliCompress fuel data quality mode chunkSize lgwin
           progressCallback i chunks s) = addEvents evs s
    /\ (forall c o' msg,
           In (EvEncode c o') evs ->
           brotliCompress c o' = CodecError msg ->
           fst (streamLoop brotliCompress fuel data quality mode chunkSize
                  lgwin progressCallback i chunks s) = Thrown msg)
    /\ (forall c o',
           In (EvEncode c o') evs ->
           brotliCompress c o' = CodecNull ->
           (progressCallback <> None ->
            fst (streamLoop brotliCompress fuel data quality mode chunkSize
                   lgwin progressCallback i chunks s)
            = Thrown nullLengthError)
           /\ forall chunks',
                fst (streamLoop brotliCompress fuel data quality mode
                       chunkSize lgwin progressCallback i chunks s)
                = Returned chunks' ->
                In None chunks')
    /\ (forall chunks',
           fst (streamLoop brotliCompress fuel data quality mode chunkSize
                  lgwin progressCallback i chunks s) = Returned chunks' ->
           forall x, In x chunks -> In x chunks').
Proof.
  induction fuel as [|fuel IH]; intros i chunks s.
  - exists []. simpl. rewrite addEvents_nil.
    split; [reflexivity |]. split; [intros ? ? ? [] |].
    split; [intros ? ? [] | discriminate].
  - simpl streamLoop. destruct (i <? len data).
    2:{ exists []. simpl. rewrite addEvents_nil.
        split; [reflexivity |]. split; [intros ? ? ? [] |].
        split; [intros ? ? [] |].
        intros chunks' H. inversion H. auto. }
    unfold bind. rewrite streamStep_run.
    (* the run after a full pass that pushed [pushed] *)
    assert (Hrest : forall pushed,
               (forall msg, brotliCompress (chunkOf i) o <> CodecError msg) ->
               (brotliCompress (chunkOf i) o = CodecNull ->
                pushed = None /\ progressCallback = None) ->
               exists evs,
                 snd (streamLoop brotliCompress fuel data quality mode
                        chunkSize lgwin progressCallback (i + chunkSize)
                        (chunks ++ [pushed]) (addEvents (passOf i) s))
                 = addEvents evs s
                 /\ (forall c o' msg,
                        In (EvEncode c o') evs ->
                        brotliCompress c o' = CodecError msg ->
                        fst (streamLoop brotliCompress fuel data quality mode
                               chunkSize lgwin progressCallback
                               (i + chunkSize) (chunks ++ [pushed])
                               (addEvents (passOf i) s)) = Thrown msg)
                 /\ (forall c o',
                        In (EvEncode c o') evs ->
                        brotliCompress c o' = CodecNull ->
                        (progressCallback <> None ->
                         fst (streamLoop brotliCompress fuel data quality
                                mode chunkSize lgwin progressCallback
                                (i + chunkSize) (chunks ++ [pushed])
                                (addEvents (passOf i) s))
                         = Thrown nullLengthError)
                        /\ forall chunks',
                             fst (streamLoop brotliCompress fuel data quality
                                    mode chunkSize lgwin progressCallback
                                    (i + chunkSize) (chunks ++ [pushed])
                                    (addEvents (passOf i) s))
                             = Returned chunks' ->
                             In None chunks')
                 /\ (forall chunks',
                        fst (streamLoop brotliCompress fuel data quality mode
                               chunkSize lgwin progressCallback
                               (i + chunkSize) (chunks ++ [pushed])
                               (addEvents (passOf i) s)) = Returned chunks' ->
                        forall x, In x chunks -> In x chunks')).
    { intros pushed Hnoerr Hnull.
      destruct (IH (i + chunkSize) (chunks ++ [pushed])
                   (addEvents (passOf i) s))
        as (evs & Hs & He & Hn & Hmono).
      exists (passOf i ++ evs). rewrite Hs, addEvents_addEvents.
      split; [reflexivity |]. split; [| split].
      - intros c o' msg Hin E. apply in_app_or in Hin.
        destruct Hin as [Hin|Hin]; [| eauto].
        apply encode_in_pass in Hin. destruct Hin as [-> ->].
        destruct (Hnoerr _ E).
      - intros c o' Hin E. apply in_app_or in Hin.
        destruct Hin as [Hin|Hin]; [| eauto].
        apply encode_in_pass in Hin. destruct Hin as [-> ->].
        destruct (Hnull E) as [-> Hcb]. split; [congruence |].
        intros chunks' Hr. apply (Hmono _ Hr).
        apply in_or_app. right. left. reflexivity.
      - intros chunks' Hr x Hx. apply (Hmono _ Hr).
        apply in_or_app. left. exact Hx. }
    destruct (brotliCompress (chunkOf i) o) as [output|msg|] eqn:E.
    + assert (Hgo := Hrest (Some output) ltac:(discriminate)
                       ltac:(discriminate)).
      destruct progressCallback as [f|]; [| exact Hgo].
      destruct (f (fractionOf i) (len output)) as [msg|]; [| exact Hgo].
      exists [EvEncode (chunkOf i) o; EvProgress (fractionOf i) (len output)].
      split; [reflexivity |]. split; [| split].
      * intros c o' msg' [H|[H|[]]] E'; [| discriminate].
        inversion H; subst. congruence.
      * intros c o' [H|[H|[]]] E'; [| discriminate].
        inversion H; subst. congruence.
      * discriminate.
    + exists [EvEncode (chunkOf i) o]. split; [reflexivity |].
      split; [| split].
      * intros c o' msg' [H|[]] E'. inversion H; subst. simpl. congruence.
      * intros c o' [H|[]] E'. inversion H; subst. congruence.
      * discriminate.
    + destruct progressCallback as [f|] eqn:Ecb.
      * exists [EvEncode (chunkOf i) o]. split; [reflexivity |].
        split; [| split].
        -- intros c o' msg' [H|[]] E'. inversion H; subst. congruence.
        -- intros c o' [H|[]] E'. split; [reflexivity | discriminate].
        -- discriminate.
      * apply (Hrest None); [discriminate | auto].
Qed.

(** What line 49 pushes is the output of the encoder exactly when the
    encoder accepts the chunk. *)
Lemma pushedAt_Some (i : Z) (output : bytes) :
  pushedOf i = Some output <-> brotliCompress (chunkOf i) o = CodecOk output.
Proof.
  unfold pushedAt. destruct (brotliCompress (chunkOf i) o); split; intro H;
    try discriminate; congruence.
Qed.

Lemma compressedAt_accepted (i : Z) (output : bytes) :
  brotliCompress (chunkOf i) o = CodecOk output -> outputOf i = output.
Proof. intro H. unfold compressedAt. now rewrite H. Qed.

Lemma allBytes_pushed (indices : list Z) :
  Forall (fun i => exists output, brotliCompress (chunkOf i) o = CodecOk output)
    indices ->
  allBytes (map pushedOf indices) = Some (map outputOf indices).
Proof.
  induction 1 as [|i l [output Hi] _ IH]; [reflexivity |].
  simpl. rewrite IH, (proj2 (pushedAt_Some i output) Hi).
  now rewrite (compressedAt_accepted i output Hi).
Qed.

Lemma allBytes_pushed_inv (indices : list Z) :
  forall l,
    allBytes (map pushedOf indices) = Some l ->
    l = map outputOf indices
    /\ Forall (fun i => brotliCompress (chunkOf i) o = CodecOk (outputOf i))
         indices.
Proof.
  induction indices as [|i indices IH]; intros l H; simpl in H.
  - inversion H. split; constructor.
  - destruct (pushedOf i) as [output|] eqn:Ei; [| discriminate].
    destruct (allBytes (map pushedOf indices)) as [l'|]; [| discriminate].
    inversion H; subst. destruct (IH l' eq_refl) as [-> Hall].
    apply pushedAt_Some in Ei.
    rewrite <- (compressedAt_accepted i output Ei) in Ei |- *.
    split; [reflexivity | constructor; assumption].
Qed.

(** With fuel for one more test than there are passes, the loop comes
    to an end.  It makes at most one encoder call per index, and when it
    returns it has made a full pass at every index and pushed what the
    encoder handed back. *)
Lemma streamLoop_complete (fuel : nat) :
  forall (i : Z) (chunks : list (option bytes)) (s : State),
    len data <= i + Z.of_nat fuel * chunkSize ->
    let r := streamLoop brotliCompress (S fuel) data quality mode
               chunkSize lgwin progressCallback i chunks s in
    let indices := loopIndices fuel (len data) chunkSize i in
    exists evs,
      snd r = addEvents evs s
      /\ fst r <> Diverged
      /\ (List.length (encodeCalls evs) <= List.length indices)%nat
      /\ forall chunks',
           fst r = Returned chunks' ->
           chunks' = chunks ++ map pushedOf indices
           /\ evs = flat_map passOf indices.
Proof.
  induction fuel as [|fuel IH]; intros i chunks s Hfuel.
  - simpl in *. destruct (i <? len data) eqn:E;
      [apply Z.ltb_lt in E; lia |].
    exists []. rewrite addEvents_nil. simpl.
    split; [reflexivity |]. split; [discriminate |]. split; [lia |].
    intros chunks' H. inversion H. rewrite app_nil_r. auto.
  - cbv zeta. change (loopIndices (S fuel) (len data) chunkSize i)
      with (if i <? len data
            then i :: loopIndices fuel (len data) chunkSize (i + chunkSize)
            else []).
    change (streamLoop brotliCompress (S (S fuel)) data quality mode
              chunkSize lgwin progressCallback i chunks s)
      with ((if i <? len data then
               bind (streamStep brotliCompress data quality mode chunkSize
                       lgwin progressCallback i chunks)
                 (fun chunks' =>
                    streamLoop brotliCompress (S fuel) data quality mode
                      chunkSize lgwin progressCallback (i + chunkSize)
                      chunks')
             else ret chunks) s).
    destruct (i <? len data) eqn:E.
    2:{ exists []. rewrite addEvents_nil. simpl.
        split; [reflexivity |]. split; [discriminate |]. split; [lia |].
        intros chunks' H. inversion H. rewrite app_nil_r. auto. }
    unfold bind. rewrite streamStep_run.
    assert (Hrest : exists evs,
               snd (streamLoop brotliCompress (S fuel) data quality mode
                      chunkSize lgwin progressCallback (i + chunkSize)
                      (chunks ++ [pushedOf i])
                      (addEvents (passOf i) s)) = addEvents evs s
               /\ fst (streamLoop brotliCompress (S fuel) data quality
                         mode chunkSize lgwin progressCallback
                         (i + chunkSize) (chunks ++ [pushedOf i])
                         (addEvents (passOf i) s)) <> Diverged
               /\ (List.length (encodeCalls evs)
                   <= List.length
                        (i :: loopIndices fuel (len data) chunkSize
                                (i + chunkSize)))%nat
               /\ forall chunks',
                    fst (streamLoop brotliCompress (S fuel) data quality
                           mode chunkSize lgwin progressCallback
                           (i + chunkSize) (chunks ++ [pushedOf i])
                           (addEvents (passOf i) s)) = Returned chunks' ->
                    chunks' = chunks
                              ++ map pushedOf
                                   (i :: loopIndices fuel (len data)
                                           chunkSize (i + chunkSize))
                    /\ evs = flat_map passOf
                               (i :: loopIndices fuel (len data)
                                       chunkSize (i + chunkSize))).
    { destruct (IH (i + chunkSize) (chunks ++ [pushedOf i])
                   (addEvents (passOf i) s)) as (evs & Hs & Hd & Hn & Hr).
      { rewrite Nat2Z.inj_succ, Z.mul_succ_l in Hfuel. lia. }
      exists (passOf i ++ evs). rewrite Hs, addEvents_addEvents.
      split; [reflexivity |]. split; [exact Hd |]. split.
      - rewrite encodeCalls_app, encodeCalls_passEvents, length_app.
        simpl. lia.
      - intros chunks' H. destruct (Hr _ H) as (-> & ->).
        simpl. rewrite <- app_assoc. split; reflexivity. }
    unfold pushedAt in Hrest.
    destruct (brotliCompress (chunkOf i) o) as [output|msg|] eqn:Eo.
    + destruct progressCallback as [f|]; [| exact Hrest].
      destruct (f (fractionOf i) (len output)) as [msg|]; [| exact Hrest].
      exists [EvEncode (chunkOf i) o; EvProgress (fractionOf i) (len output)].
      simpl.
      split; [reflexivity |]. split; [discriminate |]. split; [lia |].
      discriminate.
    + exists [EvEncode (chunkOf i) o]. simpl.
      split; [reflexivity |]. split; [discriminate |]. split; [lia |].
      discriminate.
    + destruct progressCallback as [f|]; [| exact Hrest].
      exists [EvEncode (chunkOf i) o]. simpl.
      split; [reflexivity |]. split; [discriminate |]. split; [lia |].
      discriminate.
Qed.

(** More fuel does not change a run that came to an end. *)
Lemma streamLoop_fuel_mono (fuel : nat) :
  forall (fuel' : nat) (i : Z) (chunks : list (option bytes)) (s : State),
    (fuel <= fuel')%nat ->
    fst (streamLoop brotliCompress fuel data quality mode chunkSize lgwin
           progressCallback i chunks s) <> Diverged ->
    streamLoop brotliCompress fuel' data quality mode chunkSize lgwin
      progressCallback i chunks s
    = streamLoop brotliCompress fuel data quality mode chunkSize lgwin
        progressCallback i chunks s.
Proof.
  induction fuel as [|fuel IH]; intros fuel' i chunks s Hle Hend.
  - simpl in Hend. congruence.
  - destruct fuel' as [|fuel']; [lia |].
    simpl in *. destruct (i <? len data); [| reflexivity].
    unfold bind in *.
    destruct (streamStep brotliCompress data quality mode chunkSize lgwin
                progressCallback i chunks s) as [[chunks'|msg|] s'];
      try reflexivity.
    apply IH; [lia | exact Hend].
Qed.

(** With that fuel, an encoder that accepts every chunk of the loop and a
    callback that never throws, the loop returns. *)
Lemma streamLoop_succeeds (fuel : nat) :
  forall (i : Z) (chunks : list (option bytes)) (s : State),
    len data <= i + Z.of_nat fuel * chunkSize ->
    Forall (fun i => exists output, brotliCompress (chunkOf i) o = CodecOk output)
      (loopIndices fuel (len data) chunkSize i) ->
    (forall f p n, progressCallback = Some f -> f p n = None) ->
    exists chunks' s',
      streamLoop brotliCompress (S fuel) data quality mode chunkSize lgwin
        progressCallback i chunks s = (Returned chunks', s').
Proof.
  induction fuel as [|fuel IH]; intros i chunks s Hfuel Hok Hcb.
  - simpl in *. destruct (i <? len data) eqn:E;
      [apply Z.ltb_lt in E; lia |].
    exists chunks, s. reflexivity.
  - change (loopIndices (S fuel) (len data) chunkSize i)
      with (if i <? len data
            then i :: loopIndices fuel (len data) chunkSize (i + chunkSize)
            else []) in Hok.
    change (streamLoop brotliCompress (S (S fuel)) data quality mode
              chunkSize lgwin progressCallback i chunks s)
      with ((if i <? len data then
               bind (streamStep brotliCompress data quality mode chunkSize
                       lgwin progressCallback i chunks)
                 (fun chunks' =>
                    streamLoop brotliCompress (S fuel) data quality mode
                      chunkSize lgwin progressCallback (i + chunkSize)
                      chunks')
             else ret chunks) s).
    destruct (i <? len data) eqn:E; [| exists chunks, s; reflexivity].
    inversion Hok as [|? ? [output Ho] Hrest]; subst.
    unfold bind. rewrite streamStep_run, Ho.
    assert (Hnext : exists chunks' s',
               streamLoop brotliCompress (S fuel) data quality mode chunkSize
                 lgwin progressCallback (i + chunkSize)
                 (chunks ++ [Some output])
                 (addEvents (passOf i) s) = (Returned chunks', s')).
    { apply IH; [| exact Hrest | exact Hcb].
      rewrite Nat2Z.inj_succ, Z.mul_succ_l in Hfuel. lia. }
    destruct progressCallback as [f|] eqn:Ecb; [| exact Hnext].
    rewrite (Hcb f _ _ eq_refl). exact Hnext.
Qed.

End Stream.

End Runs.

(** ** The indices and ranges of the loop *)

Lemma chunkCount_nonpos (n chunkSize : Z) :
  0 < chunkSize -> n <= 0 -> chunkCount n chunkSize <= 0.
Proof.
  intros Hc Hn. unfold chunkCount.
  assert ((n + chunkSize - 1) / chunkSize < 1); [| lia].
  apply Z.div_lt_upper_bound; lia.
Qed.

Lemma chunkCount_step (n chunkSize : Z) :
  0 < chunkSize -> 0 < n ->
  chunkCount n chunkSize = 1 + chunkCount (n - chunkSize) chunkSize
  /\ 0 <= chunkCount (n - chunkSize) chunkSize.
Proof.
  intros Hc Hn. unfold chunkCount.
  replace (n + chunkSize - 1) with (n - chunkSize + chunkSize - 1 + 1 * chunkSize)
    by lia.
  rewrite Z.div_add by lia. split; [lia |].
  apply Z.div_pos; lia.
Qed.

(** [chunkCount] is the ceiling of the quotient. *)
Lemma chunkCount_ceiling (n chunkSize : Z) :
  0 < chunkSize ->
  (chunkCount n chunkSize - 1) * chunkSize < n <= chunkCount n chunkSize * chunkSize.
Proof.
  intro Hc. unfold chunkCount.
  pose proof (Z.div_mod (n + chunkSize - 1) chunkSize ltac:(lia)) as Hdm.
  pose proof (Z.mod_pos_bound (n + chunkSize - 1) chunkSize Hc) as Hb.
  nia.
Qed.

Lemma chunkCount_nonneg (n chunkSize : Z) :
  0 < chunkSize -> 0 <= n -> 0 <= chunkCount n chunkSize.
Proof. intros. unfold chunkCount. apply Z.div_pos; lia. Qed.

(** With a positive step and enough fuel, the body runs at
    [i, i + chunkSize, i + 2 chunkSize, ...], [ceil((n - i) / chunkSize)]
    times. *)
Lemma loopIndices_closed (n chunkSize : Z) (fuel : nat) :
  0 < chunkSize ->
  forall i,
    n <= i + Z.of_nat fuel * chunkSize ->
    loopIndices fuel n chunkSize i
    = map (fun j => i + Z.of_nat j * chunkSize)
          (seq 0 (Z.to_nat (chunkCount (n - i) chunkSize))).
Proof.
  intro Hc. induction fuel as [|fuel IH]; intros i Hfuel.
  - simpl in *.
    pose proof (chunkCount_nonpos (n - i) chunkSize Hc ltac:(lia)).
    replace (Z.to_nat (chunkCount (n - i) chunkSize)) with 0%nat by lia.
    reflexivity.
  - simpl loopIndices. destruct (i <? n) eqn:E.
    + apply Z.ltb_lt in E.
      rewrite IH by (rewrite Nat2Z.inj_succ, Z.mul_succ_l in Hfuel; lia).
      destruct (chunkCount_step (n - i) chunkSize Hc ltac:(lia)) as [Hs Hp].
      replace (n - (i + chunkSize)) with (n - i - chunkSize) by lia.
      rewrite Hs.
      replace (Z.to_nat (1 + chunkCount (n - i - chunkSize) chunkSize))
        with (S (Z.to_nat (chunkCount (n - i - chunkSize) chunkSize))) by lia.
      simpl seq. simpl map. f_equal; [lia |].
      rewrite <- seq_shift, map_map. apply map_ext. intro j.
      rewrite Nat2Z.inj_succ, Z.mul_succ_l. lia.
    + apply Z.ltb_ge in E.
      pose proof (chunkCount_nonpos (n - i) chunkSize Hc ltac:(lia)).
      replace (Z.to_nat (chunkCount (n - i) chunkSize)) with 0%nat by lia.
      reflexivity.
Qed.

Lemma loopIndices_length (n chunkSize : Z) (fuel : nat) :
  0 < chunkSize -> 0 <= n ->
  n <= Z.of_nat fuel * chunkSize ->
  Z.of_nat (List.length (loopIndices fuel n chunkSize 0)) = chunkCount n chunkSize.
Proof.
  intros Hc Hn Hfuel.
  rewrite loopIndices_closed by lia.
  rewrite length_map, length_seq, Z.sub_0_r.
  pose proof (chunkCount_nonneg n chunkSize Hc Hn). lia.
Qed.

(** A slice that starts inside the array and has a positive width stops
    at the end of the array at the latest. *)
Lemma sliceRange_inside (n i chunkSize : Z) :
  0 <= i < n -> 0 < chunkSize ->
  sliceRange n i (i + chunkSize) = (i, Z.min (i + chunkSize) n).
Proof.
  intros Hi Hc. unfold sliceRange, relativeIndex.
  destruct (i <? 0) eqn:E1; [apply Z.ltb_lt in E1; lia |].
  destruct (i + chunkSize <? 0) eqn:E2; [apply Z.ltb_lt in E2; lia |].
  f_equal; lia.
Qed.

(** The ranges in closed form: range [j] is
    [j chunkSize, min((j + 1) chunkSize, n)). *)
Lemma chunkRanges_closed (n chunkSize : Z) :
  0 <= n -> 0 < chunkSize ->
  chunkRanges n chunkSize
  = map (fun j => (Z.of_nat j * chunkSize,
                   Z.min ((Z.of_nat j + 1) * chunkSize) n))
        (seq 0 (Z.to_nat (chunkCount n chunkSize))).
Proof.
  intros Hn Hc. unfold chunkRanges, chunkStarts.
  rewrite loopIndices_closed by nia.
  rewrite map_map, Z.sub_0_r. apply map_ext_in. intros j Hj.
  apply in_seq in Hj.
  pose proof (chunkCount_ceiling n chunkSize Hc).
  rewrite sliceRange_inside by nia.
  f_equal; lia.
Qed.

(** ** The methods as functions of the state *)

Section Facade.

Variable brotliCompress : bytes -> EncodeOptions -> CodecResult.
Variable brotliDecompress : bytes -> DecodeResult.
Variable clock : nat -> Q.

Lemma compressWithProgress_run fuel data options progressCallback s :
  compressWithProgress brotliCompress clock fuel data options
    progressCallback s
  = match codecWork brotliCompress fuel data options progressCallback
            (tick s) with
    | (Returned (Some compressedData), s') =>
        (Returned compressedData,
         recordCompression clock (clock (clockReads s)) data compressedData s')
    | (Returned None, s') =>
        (Thrown ("Compression failed: " ++ nullLengthError)%string,
         recordNullFailure clock (clock (clockReads s)) data s')
    | (Thrown msg, s') => (Thrown ("Compression failed: " ++ msg)%string, s')
    | (Diverged, s') => (Diverged, s')
    end.
Proof.
  unfold compressWithProgress, codecWork, takesChunkedPath,
    effectiveChunkSize, encodeOptionsOf, performance_now.
  unfold bind at 1. unfold tryCatch. unfold bind at 1. fold (tick s).
  match goal with
  | |- context [(if ?c then ?a else ?b) (tick s)] =>
      destruct ((if c then a else b) (tick s)) as [[[out|]|msg|] s']
  end; reflexivity.
Qed.

Lemma decompress_run compressedData s :
  decompress brotliDecompress clock compressedData s
  = match brotliDecompress compressedData with
    | DecodeOk decompressedData =>
        (Returned decompressedData,
         recordDecompression clock (clock (clockReads s))
           (addEvents [EvDecode compressedData] (tick s)))
    | DecodeError msg =>
        (Thrown ("Decompression failed: " ++ msg)%string,
         addEvents [EvDecode compressedData] (tick s))
    end.
Proof.
  unfold decompress, performance_now.
  unfold bind at 1. unfold tryCatch. unfold bind at 1. fold (tick s).
  rewrite callDecompress_run.
  destruct (brotliDecompress compressedData); reflexivity.
Qed.

Lemma streamCompress_run fuel data quality mode chunkSize lgwin cb s :
  streamCompress brotliCompress fuel data quality mode chunkSize lgwin cb s
  = match streamLoop brotliCompress fuel data quality mode chunkSize lgwin
            cb 0 [] s with
    | (Returned chunks, s') =>
        (match allBytes chunks with
         | Some l => Returned (List.concat l)
         | None => Thrown nullLengthError
         end, s')
    | (Thrown msg, s') => (Thrown msg, s')
    | (Diverged, s') => (Diverged, s')
    end.
Proof.
  unfold streamCompress, bind.
  destruct (streamLoop brotliCompress fuel data quality mode chunkSize lgwin
              cb 0 [] s) as [[chunks|msg|] s']; try reflexivity.
  pose proof (assemble_concat chunks) as H.
  rewrite totalLength_allBytes in *.
  destruct (allBytes chunks) as [l|]; [| reflexivity].
  rewrite H. reflexivity.
Qed.

(** On the chunked path the codec work hands back bytes when it returns. *)
Lemma codecWork_chunked fuel data options cb s :
  takesChunkedPath data options = true ->
  codecWork brotliCompress fuel data options cb s
  = match streamCompress brotliCompress fuel data
            (withDefault 6 (quality options)) (withDefault 0 (mode options))
            (effectiveChunkSize options) (withDefault 22 (lgwin options))
            cb s with
    | (Returned result, s') => (Returned (Some result), s')
    | (Thrown msg, s') => (Thrown msg, s')
    | (Diverged, s') => (Diverged, s')
    end.
Proof.
  intro H. unfold codecWork, bind. rewrite H.
  destruct (streamCompress brotliCompress fuel data _ _ _ _ cb s)
    as [[r|m|] s']; reflexivity.
Qed.

(** The codec work reads no clock and writes no metrics: it only adds
    events; and an encoder call that throws ends it with that error. *)
Lemma codecWork_frame fuel data options cb s :
  exists evs,
    snd (codecWork brotliCompress fuel data options cb s) = addEvents evs s
    /\ forall c o msg,
         In (EvEncode c o) evs ->
         brotliCompress c o = CodecError msg ->
         fst (codecWork brotliCompress fuel data options cb s) = Thrown msg.
Proof.
  destruct (takesChunkedPath data options) eqn:Ep.
  - rewrite codecWork_chunked by exact Ep. rewrite streamCompress_run.
    destruct (streamLoop_frame brotliCompress data
                (withDefault 6 (quality options))
                (withDefault 0 (mode options))
                (effectiveChunkSize options)
                (withDefault 22 (lgwin options)) cb fuel 0 [] s)
      as (evs & Hs & Hf & _).
    exists evs.
    destruct (streamLoop brotliCompress fuel data _ _ _ _ cb 0 [] s)
      as [[chunks|msg|] s']; simpl in *.
    + split; [destruct (allBytes chunks); exact Hs |].
      intros c o msg' Hin E; specialize (Hf _ _ _ Hin E); congruence.
    + split; [exact Hs |].
      intros c o msg' Hin E; specialize (Hf _ _ _ Hin E); congruence.
    + split; [exact Hs |].
      intros c o msg' Hin E; specialize (Hf _ _ _ Hin E); congruence.
  - unfold codecWork. rewrite Ep, callCompress_run.
    exists [EvEncode data (encodeOptionsOf options)].
    split; [reflexivity |].
    intros c o msg [H|[]] E. inversion H; subst. simpl. now rewrite E.
Qed.

(** On the chunked path, an encoder call that does not hand back bytes
    keeps the codec work from returning; with a callback, a [null] ends it
    with the [TypeError] of line 53. *)
Lemma codecWork_chunked_failure fuel data options cb s :
  takesChunkedPath data options = true ->
  exists evs,
    snd (codecWork brotliCompress fuel data options cb s) = addEvents evs s
    /\ forall c o,
         In (EvEncode c o) evs ->
         (forall output, brotliCompress c o <> CodecOk output) ->
         (forall r, fst (codecWork brotliCompress fuel data options cb s)
                    <> Returned r)
         /\ (forall msg,
                brotliCompress c o = CodecError msg ->
                fst (codecWork brotliCompress fuel data options cb s)
                = Thrown msg)
         /\ (brotliCompress c o = CodecNull -> cb <> None ->
             fst (codecWork brotliCompress fuel data options cb s)
             = Thrown nullLengthError).
Proof.
  intro Ep. rewrite codecWork_chunked by exact Ep. rewrite streamCompress_run.
  destruct (streamLoop_frame brotliCompress data
              (withDefault 6 (quality options))
              (withDefault 0 (mode options))
              (effectiveChunkSize options)
              (withDefault 22 (lgwin options)) cb fuel 0 [] s)
    as (evs & Hs & Hf & Hn & _).
  exists evs.
  destruct (streamLoop brotliCompress fuel data _ _ _ _ cb 0 [] s)
    as [[chunks|msg|] s'] eqn:Erun; simpl in *.
  - split; [destruct (allBytes chunks); exact Hs |].
    intros c o Hin Hfail.
    destruct (brotliCompress c o) as [output|msg|] eqn:E.
    + destruct (Hfail output eq_refl).
    + specialize (Hf _ _ _ Hin E). discriminate.
    + destruct (Hn _ _ Hin E) as [Hcb Hnull].
      rewrite (allBytes_null chunks (Hnull chunks eq_refl)).
      split; [discriminate |]. split; [discriminate |].
      intros _ Hc. specialize (Hcb Hc). discriminate.
  - split; [exact Hs |]. intros c o Hin Hfail.
    split; [discriminate |]. split.
    + intros msg' E. specialize (Hf _ _ _ Hin E). congruence.
    + intros E Hc. destruct (Hn _ _ Hin E) as [Hcb _].
      specialize (Hcb Hc). congruence.
  - split; [exact Hs |]. intros c o Hin Hfail.
    split; [discriminate |]. split.
    + intros msg' E. specialize (Hf _ _ _ Hin E). discriminate.
    + intros E Hc. destruct (Hn _ _ Hin E) as [Hcb _].
      specialize (Hcb Hc). discriminate.
Qed.

End Facade.

Lemma emitted_of_trace (s s' : State) (evs : list Event) :
  trace s' = trace s ++ evs -> emitted s s' = evs.
Proof.
  intro H. unfold emitted. rewrite H, skipn_app, skipn_all, Nat.sub_diag.
  reflexivity.
Qed.

Lemma takesChunkedPath_false (data : bytes) (options : Options) :
  len data <= effectiveChunkSize options ->
  takesChunkedPath data options = false.
Proof.
  intro H. unfold takesChunkedPath.
  rewrite Z.gtb_ltb. replace (effectiveChunkSize options <? len data) with false.
  - apply andb_false_r.
  - symmetry. apply Z.ltb_ge. exact H.
Qed.

Lemma takesChunkedPath_true (data : bytes) (options : Options) :
  takesChunkedPath data options = true ->
  effectiveChunkSize options <> 0
  /\ effectiveChunkSize options < len data.
Proof.
  unfold takesChunkedPath, truthy. intro H.
  apply andb_prop in H. destruct H as [H1 H2].
  apply negb_true_iff, Z.eqb_neq in H1.
  rewrite Z.gtb_ltb in H2. apply Z.ltb_lt in H2. auto.
Qed.

Section OneShot.

Variable brotliCompress : bytes -> EncodeOptions -> CodecResult.
Variable clock : nat -> Q.

(** What [compressWithProgress] does when line 20 sends it to the [else]
    branch.  When the encoder hands back [null], lines 30 and 31 have run
    when line 32 throws. *)
Lemma compressWithProgress_one_shot fuel data options cb s :
  takesChunkedPath data options = false ->
  compressWithProgress brotliCompress clock fuel data options cb s
  = match brotliCompress data (encodeOptionsOf options) with
    | CodecOk output =>
        (Returned output,
         recordCompression clock (clock (clockReads s)) data output
           (addEvents [EvEncode data (encodeOptionsOf options)] (tick s)))
    | CodecError msg =>
        (Thrown ("Compression failed: " ++ msg)%string,
         addEvents [EvEncode data (encodeOptionsOf options)] (tick s))
    | CodecNull =>
        (Thrown ("Compression failed: " ++ nullLengthError)%string,
         recordNullFailure clock (clock (clockReads s)) data
           (addEvents [EvEncode data (encodeOptionsOf options)] (tick s)))
    end.
Proof.
  intro H. rewrite compressWithProgress_run. unfold codecWork. rewrite H.
  rewrite callCompress_run.
  destruct (brotliCompress data (encodeOptionsOf options)); reflexivity.
Qed.

(** On that branch the trace grows by the one encoder call. *)
Lemma one_shot_emitted fuel data options cb s :
  takesChunkedPath data options = false ->
  emitted s (snd (compressWithProgress brotliCompress clock fuel data
                    options cb s))
  = [EvEncode data (encodeOptionsOf options)].
Proof.
  intro H. rewrite compressWithProgress_one_shot by exact H.
  destruct (brotliCompress data (encodeOptionsOf options));
    apply emitted_of_trace; reflexivity.
Qed.

(** An error of [compressWithProgress] is always the wrapped error of
    line 36. *)
Lemma compress_error_is_wrapped fuel data options cb s msg :
  fst (compressWithProgress brotliCompress clock fuel data options cb s)
  = Thrown msg ->
  exists cause, msg = ("Compression failed: " ++ cause)%string.
Proof.
  rewrite compressWithProgress_run.
  destruct (codecWork brotliCompress fuel data options cb (tick s))
    as [[[out|]|cause|] s']; simpl; intro H; try discriminate.
  - exists nullLengthError. congruence.
  - exists cause. congruence.
Qed.

Lemma streamCompress_state fuel data quality mode chunkSize lgwin cb s :
  snd (streamCompress brotliCompress fuel data quality mode chunkSize lgwin
         cb s)
  = snd (streamLoop brotliCompress fuel data quality mode chunkSize lgwin
           cb 0 [] s).
Proof.
  rewrite streamCompress_run.
  destruct (streamLoop brotliCompress fuel data quality mode chunkSize lgwin
              cb 0 [] s) as [[chunks|msg|] s']; reflexivity.
Qed.

Lemma codecWork_state fuel data options cb s :
  takesChunkedPath data options = true ->
  snd (codecWork brotliCompress fuel data options cb s)
  = snd (streamLoop brotliCompress fuel data
           (withDefault 6 (quality options)) (withDefault 0 (mode options))
           (effectiveChunkSize options) (withDefault 22 (lgwin options))
           cb 0 [] s).
Proof.
  intro H. rewrite codecWork_chunked by exact H.
  rewrite <- streamCompress_state.
  destruct (streamCompress brotliCompress fuel data _ _ _ _ cb s)
    as [[r|m|] s']; reflexivity.
Qed.

(** The events of a call are the events of its codec work. *)
Lemma compress_emitted fuel data options cb s :
  emitted s (snd (compressWithProgress brotliCompress clock fuel data
                    options cb s))
  = emitted (tick s)
      (snd (codecWork brotliCompress fuel data options cb (tick s))).
Proof.
  rewrite compressWithProgress_run.
  destruct (codecWork brotliCompress fuel data options cb (tick s))
    as [[[out|]|msg|] s']; reflexivity.
Qed.

(** On a non-empty input the loop begins with an encoder call on the
    first chunk. *)
Lemma streamLoop_first_event fuel data quality mode chunkSize lgwin cb
    chunks s :
  0 < len data ->
  exists rest,
    snd (streamLoop brotliCompress (S fuel) data quality mode chunkSize
           lgwin cb 0 chunks s)
    = addEvents (EvEncode (chunkAt data chunkSize 0)
                   (mkEncodeOptions mode quality lgwin) :: rest) s.
Proof.
  intro Hlen. simpl streamLoop.
  destruct (0 <? len data) eqn:E0; [| apply Z.ltb_ge in E0; lia].
  unfold bind at 1. rewrite streamStep_run.
  assert (Hrest : forall pushed, exists rest,
             snd (streamLoop brotliCompress fuel data quality mode chunkSize
                    lgwin cb (0 + chunkSize) (chunks ++ [pushed])
                    (addEvents (passEvents brotliCompress data quality mode
                                  chunkSize lgwin cb 0) s))
             = addEvents (EvEncode (chunkAt data chunkSize 0)
                            (mkEncodeOptions mode quality lgwin) :: rest) s).
  { intro pushed.
    destruct (streamLoop_frame brotliCompress data quality mode chunkSize
                lgwin cb fuel (0 + chunkSize) (chunks ++ [pushed])
                (addEvents (passEvents brotliCompress data quality mode
                              chunkSize lgwin cb 0) s)) as (evs & Hs & _).
    rewrite Hs, addEvents_addEvents. eexists. reflexivity. }
  destruct (brotliCompress (chunkAt data chunkSize 0)
              (mkEncodeOptions mode quality lgwin)) as [output|msg|].
  - destruct cb as [f|]; [| apply Hrest].
    destruct (f _ _); [| apply Hrest].
    eexists. reflexivity.
  - exists []. reflexivity.
  - destruct cb as [f|]; [| apply Hrest].
    exists []. reflexivity.
Qed.

(** With a chunk size that is not negative, the first thing the call does
    to the outside is an encoder call with the options as given. *)
Lemma compress_starts_with_encode fuel data options cb s :
  0 <= effectiveChunkSize options ->
  exists chunk rest,
    emitted s (snd (compressWithProgress brotliCompress clock (S fuel) data
                      options cb s))
    = EvEncode chunk (encodeOptionsOf options) :: rest.
Proof.
  intro Hc. destruct (takesChunkedPath data options) eqn:E.
  - rewrite compress_emitted, codecWork_state by exact E.
    apply takesChunkedPath_true in E. destruct E as [Hnz Hlt].
    destruct (streamLoop_first_event fuel data
                (withDefault 6 (quality options))
                (withDefault 0 (mode options))
                (effectiveChunkSize options)
                (withDefault 22 (lgwin options)) cb [] (tick s)
                ltac:(lia)) as (rest & Hs).
    rewrite Hs, emitted_addEvents. eexists. eexists. reflexivity.
  - exists data, []. apply one_shot_emitted. exact E.
Qed.

End OneShot.

(** * The claims *)

(** ** Configuration *)

(** C1, as the specification states it, fails: a call with quality 12, with
    lgwin 25 or with chunkSize 0 is not rejected.  On a one-byte input and
    with the storing encoder, each of the three calls hands the input and
    the options as given to the encoder and returns what it produced. *)
Lemma out_of_range_config_reaches_codec :
  (fst (compressWithProgress storeCompress sampleClock 1 [x2a] quality12 None
          newProcessor) = Returned [x01; x2a]
   /\ encodeCalls (trace (snd (compressWithProgress storeCompress sampleClock
                                 1 [x2a] quality12 None newProcessor)))
      = [([x2a], mkEncodeOptions 0 12 22)])
  /\ (fst (compressWithProgress storeCompress sampleClock 1 [x2a] windowBits25
             None newProcessor) = Returned [x01; x2a]
      /\ encodeCalls (trace (snd (compressWithProgress storeCompress
                                    sampleClock 1 [x2a] windowBits25 None
                                    newProcessor)))
         = [([x2a], mkEncodeOptions 0 6 25)])
  /\ (fst (compressWithProgress storeCompress sampleClock 1 [x2a] chunkSize0
             None newProcessor) = Returned [x01; x2a]
      /\ encodeCalls (trace (snd (compressWithProgress storeCompress
                                    sampleClock 1 [x2a] chunkSize0 None
                                    newProcessor)))
         = [([x2a], mkEncodeOptions 0 6 22)]).
Proof. repeat split; reflexivity. Qed.

(** C1, amended.  [compressWithProgress] validates nothing: for every input,
    codec, callback and processor state, a call with quality 12, with lgwin
    25 or with chunkSize 0 goes to the encoder with those options unchanged,
    and it can only fail with "Compression failed: " followed by the message
    of what failed underneath.  With chunkSize 0 the encoder is called once,
    on the whole input. *)
Theorem out_of_range_config_forwarded
    (brotliCompress : bytes -> EncodeOptions -> CodecResult) (clock : nat -> Q)
    (fuel : nat) (data : bytes) (progressCallback : option Callback)
    (s : State) :
  forwardedToCodec brotliCompress clock (S fuel) data quality12
    progressCallback s
  /\ encodeOptionsOf quality12 = mkEncodeOptions 0 12 22
  /\ forwardedToCodec brotliCompress clock (S fuel) data windowBits25
       progressCallback s
  /\ encodeOptionsOf windowBits25 = mkEncodeOptions 0 6 25
  /\ forwardedToCodec brotliCompress clock (S fuel) data chunkSize0
       progressCallback s
  /\ emitted s (snd (compressWithProgress brotliCompress clock (S fuel) data
                       chunkSize0 progressCallback s))
     = [EvEncode data (mkEncodeOptions 0 6 22)].
Proof.
  assert (H : forall options,
             0 <= effectiveChunkSize options ->
             forwardedToCodec brotliCompress clock (S fuel) data options
               progressCallback s).
  { intros options Hc. split.
    - apply compress_starts_with_encode. exact Hc.
    - intro msg. apply compress_error_is_wrapped. }
  repeat split; try reflexivity; try (apply H; vm_compute; discriminate).
  apply (one_shot_emitted brotliCompress clock (S fuel) data chunkSize0).
  reflexivity.
Qed.

(** C9.  With chunkSize 0 the call is not rejected and never reaches the
    chunked branch: whatever the input, it calls the encoder once, on the
    whole buffer, and its result is the encoder's, an output returned as it
    is (a failure of the encoder, thrown or [null], comes back wrapped by
    line 36; chunkSize 0 raises nothing). *)
Theorem zero_chunkSize_one_shot
    (brotliCompress : bytes -> EncodeOptions -> CodecResult) (clock : nat -> Q)
    (fuel : nat) (data : bytes) (options : Options)
    (progressCallback : option Callback) (s : State) :
  takesChunkedPath data (withChunkSize 0 options) = false
  /\ emitted s (snd (compressWithProgress brotliCompress clock fuel data
                       (withChunkSize 0 options) progressCallback s))
     = [EvEncode data (encodeOptionsOf options)]
  /\ fst (compressWithProgress brotliCompress clock fuel data
            (withChunkSize 0 options) progressCallback s)
     = match brotliCompress data (encodeOptionsOf options) with
       | CodecOk output => Returned output
       | CodecError msg => Thrown ("Compression failed: " ++ msg)%string
       | CodecNull =>
           Thrown ("Compression failed: " ++ nullLengthError)%string
       end.
Proof.
  split; [reflexivity |]. split.
  - apply (one_shot_emitted brotliCompress clock fuel data
             (withChunkSize 0 options)). reflexivity.
  - rewrite compressWithProgress_one_shot by reflexivity.
    change (encodeOptionsOf (withChunkSize 0 options))
      with (encodeOptionsOf options).
    destruct (brotliCompress data (encodeOptionsOf options)); reflexivity.
Qed.

(** ** The one-shot path *)

(** C3.  When the input is no longer than the chunk size, the call makes
    one encoder call, on the whole buffer and with [{mode, quality, lgwin}];
    it never calls the progress callback; its result is the encoder's
    output, unframed; and a chunk size equal to the length of the input
    behaves exactly as one that is larger by one. *)
Theorem one_shot_path
    (brotliCompress : bytes -> EncodeOptions -> CodecResult) (clock : nat -> Q)
    (fuel : nat) (data : bytes) (options : Options)
    (progressCallback : option Callback) (s : State) :
  len data <= effectiveChunkSize options ->
  emitted s (snd (compressWithProgress brotliCompress clock fuel data options
                    progressCallback s))
  = [EvEncode data (mkEncodeOptions (withDefault 0 (mode options))
                      (withDefault 6 (quality options))
                      (withDefault 22 (lgwin options)))]
  /\ progressCalls
       (emitted s (snd (compressWithProgress brotliCompress clock fuel data
                          options progressCallback s))) = []
  /\ fst (compressWithProgress brotliCompress clock fuel data options
            progressCallback s)
     = match brotliCompress data (encodeOptionsOf options) with
       | CodecOk output => Returned output
       | CodecError msg => Thrown ("Compression failed: " ++ msg)%string
       | CodecNull =>
           Thrown ("Compression failed: " ++ nullLengthError)%string
       end
  /\ compressWithProgress brotliCompress clock fuel data
       (withChunkSize (len data) options) progressCallback s
     = compressWithProgress brotliCompress clock fuel data
         (withChunkSize (len data + 1) options) progressCallback s.
Proof.
  intro Hlen. pose proof (takesChunkedPath_false data options Hlen) as Hp.
  pose proof (one_shot_emitted brotliCompress clock fuel data options
                progressCallback s Hp) as He.
  split; [exact He |]. split; [rewrite He; reflexivity |]. split.
  - rewrite compressWithProgress_one_shot by exact Hp.
    destruct (brotliCompress data (encodeOptionsOf options)); reflexivity.
  - rewrite !compressWithProgress_one_shot
      by (apply takesChunkedPath_false; unfold effectiveChunkSize; simpl; lia).
    reflexivity.
Qed.

Lemma one_shot_path_witness :
  len [x0a; x0b; x0c] <= effectiveChunkSize (withChunkSize 3 noOptions)
  /\ emitted newProcessor
       (snd (compressWithProgress storeCompress sampleClock 0 [x0a; x0b; x0c]
               (withChunkSize 3 noOptions) (Some listen) newProcessor))
     = [EvEncode [x0a; x0b; x0c] (mkEncodeOptions 0 6 22)].
Proof.
  split; [vm_compute; discriminate |].
  apply (one_shot_path storeCompress sampleClock 0 [x0a; x0b; x0c]
           (withChunkSize 3 noOptions) (Some listen) newProcessor).
  vm_compute; discriminate.
Defined.

(** ** Round trip *)

(** C2.  With a valid configuration and an input no longer than the chunk
    size, and a codec whose decoder inverts its encoder,
    [compressWithProgress] returns an artifact that [decompress] turns back
    into the input. *)
Theorem roundtrip_one_shot
    (brotliCompress : bytes -> EncodeOptions -> CodecResult)
    (brotliDecompress : bytes -> DecodeResult) (clock : nat -> Q)
    (fuel : nat) (data : bytes) (options : Options)
    (progressCallback : option Callback) (s : State) :
  validConfig options = true ->
  len data <= effectiveChunkSize options ->
  (forall x o,
      validEncodeOptions o = true ->
      exists y, brotliCompress x o = CodecOk y
                /\ brotliDecompress y = DecodeOk x) ->
  exists artifact s1 s2,
    compressWithProgress brotliCompress clock fuel data options
      progressCallback s = (Returned artifact, s1)
    /\ decompress brotliDecompress clock artifact s1 = (Returned data, s2).
Proof.
  intros Hvalid Hlen Hinv.
  apply andb_prop in Hvalid. destruct Hvalid as [Hvalid _].
  destruct (Hinv data (encodeOptionsOf options) Hvalid) as (y & Hc & Hd).
  rewrite compressWithProgress_one_shot
    by (apply takesChunkedPath_false; exact Hlen).
  rewrite Hc. eexists. eexists. eexists. split; [reflexivity |].
  rewrite decompress_run, Hd. reflexivity.
Qed.

Lemma roundtrip_one_shot_witness :
  exists artifact s1 s2,
    compressWithProgress storeCompress sampleClock 0 [x0a; x0b; x0c]
      (mkOptions (Some 9) (Some 1) (Some 4) (Some 22)) None newProcessor
    = (Returned artifact, s1)
    /\ decompress storeDecompress sampleClock artifact s1
       = (Returned [x0a; x0b; x0c], s2).
Proof.
  apply (roundtrip_one_shot storeCompress storeDecompress sampleClock 0
           [x0a; x0b; x0c] (mkOptions (Some 9) (Some 1) (Some 4) (Some 22))
           None newProcessor).
  - reflexivity.
  - vm_compute; discriminate.
  - intros x o _. exists (x01 :: x). split; reflexivity.
Defined.

(** ** Metrics *)

(** C8.  The ratio returned by [getMetrics] is the original size over the
    compressed size, with 1 in place of a compressed size of 0; for sizes
    1000 and 0 it is 1000. *)
Theorem compression_ratio_guard (s : State) :
  0 <= compressedSize (performanceMetrics s) ->
  compressionRatio (getMetrics s)
  = (inject_Z (originalSize (performanceMetrics s))
     / inject_Z (Z.max (compressedSize (performanceMetrics s)) 1))%Q
  /\ (compressedSize (performanceMetrics s) = 0 ->
      compressionRatio (getMetrics s)
      = (inject_Z (originalSize (performanceMetrics s)) / 1)%Q)
  /\ compressionRatio
       (getMetrics (mkState (mkMetrics 0 0 1000 0) 0 [])) = 1000%Q.
Proof.
  intro Hc. unfold getMetrics, orElse, truthy; simpl.
  split; [| split; [| reflexivity]].
  - destruct (compressedSize (performanceMetrics s) =? 0) eqn:E; simpl.
    + apply Z.eqb_eq in E. rewrite E. reflexivity.
    + apply Z.eqb_neq in E. do 2 f_equal. lia.
  - intro H0. rewrite H0. reflexivity.
Qed.

Lemma compression_ratio_guard_witness :
  0 <= compressedSize (performanceMetrics (mkState (mkMetrics 0 0 1000 0) 0 []))
  /\ compressionRatio (getMetrics (mkState (mkMetrics 0 0 1000 0) 0 []))
     = (inject_Z 1000 / inject_Z (Z.max 0 1))%Q.
Proof.
  split; [simpl; lia |].
  apply (compression_ratio_guard (mkState (mkMetrics 0 0 1000 0) 0 [])).
  simpl; lia.
Defined.

Section Metrics.

Variable brotliCompress : bytes -> EncodeOptions -> CodecResult.
Variable brotliDecompress : bytes -> DecodeResult.
Variable clock : nat -> Q.

(** A call that returns has read the clock twice and has written the
    three compression fields, from this call alone. *)
Lemma compress_returned fuel data options cb s compressedData s' :
  compressWithProgress brotliCompress clock fuel data options cb s
  = (Returned compressedData, s') ->
  performanceMetrics s'
  = mkMetrics (clock (S (clockReads s)) - clock (clockReads s))%Q
      (decompressionTime (performanceMetrics s))
      (len data) (len compressedData)
  /\ clockReads s' = S (S (clockReads s)).
Proof.
  rewrite compressWithProgress_run.
  destruct (codecWork_frame brotliCompress fuel data options cb (tick s))
    as (evs & Hs & _).
  destruct (codecWork brotliCompress fuel data options cb (tick s))
    as [[[out|]|msg|] s1]; simpl in Hs; intro H; inversion H; subst.
  split; reflexivity.
Qed.

Lemma decompress_returned compressedData s decompressedData s' :
  decompress brotliDecompress clock compressedData s
  = (Returned decompressedData, s') ->
  performanceMetrics s'
  = mkMetrics (compressionTime (performanceMetrics s))
      (clock (S (clockReads s)) - clock (clockReads s))%Q
      (originalSize (performanceMetrics s))
      (compressedSize (performanceMetrics s)).
Proof.
  rewrite decompress_run.
  destruct (brotliDecompress compressedData); intro H; inversion H.
  reflexivity.
Qed.

End Metrics.

(** C7.  After two calls of [compressWithProgress] that return, the metrics
    hold the sizes and the time of the second call and nothing of the
    first: the time is the difference of the two clock readings of the
    second call.  A [decompress] that returns writes the decompression time
    and leaves the three compression fields as they were. *)
Theorem metrics_overwritten
    (brotliCompress : bytes -> EncodeOptions -> CodecResult)
    (brotliDecompress : bytes -> DecodeResult) (clock : nat -> Q)
    (fuel1 fuel2 : nat) (data1 data2 : bytes) (options1 options2 : Options)
    (callback1 callback2 : option Callback)
    (s0 s1 s2 : State) (compressed1 compressed2 : bytes) :
  compressWithProgress brotliCompress clock fuel1 data1 options1 callback1 s0
  = (Returned compressed1, s1) ->
  compressWithProgress brotliCompress clock fuel2 data2 options2 callback2 s1
  = (Returned compressed2, s2) ->
  performanceMetrics s2
  = mkMetrics (clock (S (clockReads s1)) - clock (clockReads s1))%Q
      (decompressionTime (performanceMetrics s0))
      (len data2) (len compressed2)
  /\ snap_originalSize (getMetrics s2) = len data2
  /\ snap_compressedSize (getMetrics s2) = len compressed2
  /\ snap_compressionTime (getMetrics s2)
     = (clock (S (clockReads s1)) - clock (clockReads s1))%Q
  /\ forall (s s' : State) (buffer decompressed : bytes),
       decompress brotliDecompress clock buffer s = (Returned decompressed, s') ->
       decompressionTime (performanceMetrics s')
       = (clock (S (clockReads s)) - clock (clockReads s))%Q
       /\ compressionTime (performanceMetrics s')
          = compressionTime (performanceMetrics s)
       /\ originalSize (performanceMetrics s')
          = originalSize (performanceMetrics s)
       /\ compressedSize (performanceMetrics s')
          = compressedSize (performanceMetrics s).
Proof.
  intros H1 H2.
  apply compress_returned in H1. destruct H1 as [M1 _].
  apply compress_returned in H2. destruct H2 as [M2 _].
  unfold getMetrics. rewrite M2, M1. simpl.
  repeat split; try reflexivity;
    apply decompress_returned in H; rewrite H; reflexivity.
Qed.

Lemma metrics_overwritten_witness :
  performanceMetrics
    (snd (compressWithProgress storeCompress sampleClock 9 [x0d; x0e; x0f]
            (withChunkSize 2 noOptions) None
            (snd (compressWithProgress storeCompress sampleClock 0
                    [x0a; x0b; x0c; x0d; x0e] noOptions None newProcessor))))
  = mkMetrics (sampleClock 3 - sampleClock 2)%Q 0%Q 3 5.
Proof.
  apply (metrics_overwritten storeCompress storeDecompress sampleClock 0 9
           [x0a; x0b; x0c; x0d; x0e] [x0d; x0e; x0f]
           noOptions (withChunkSize 2 noOptions) None None newProcessor
           (snd (compressWithProgress storeCompress sampleClock 0
                   [x0a; x0b; x0c; x0d; x0e] noOptions None newProcessor))
           (snd (compressWithProgress storeCompress sampleClock 9
                   [x0d; x0e; x0f] (withChunkSize 2 noOptions) None
                   (snd (compressWithProgress storeCompress sampleClock 0
                           [x0a; x0b; x0c; x0d; x0e] noOptions None
                           newProcessor))))
           [x01; x0a; x0b; x0c; x0d; x0e]
           [x01; x0d; x0e; x01; x0f]);
    reflexivity.
Defined.

(** ** The chunked path *)

Lemma loopIndices_enough (n chunkSize : Z) (fuel : nat) :
  0 < chunkSize -> n <= Z.of_nat fuel * chunkSize ->
  loopIndices fuel n chunkSize 0 = chunkStarts n chunkSize.
Proof.
  intros Hc Hf. unfold chunkStarts.
  rewrite !loopIndices_closed by nia. reflexivity.
Qed.

Lemma chunkStarts_closed (n chunkSize : Z) :
  0 < chunkSize ->
  chunkStarts n chunkSize
  = map (fun j => Z.of_nat j * chunkSize)
        (seq 0 (Z.to_nat (chunkCount n chunkSize))).
Proof.
  intro Hc. unfold chunkStarts. rewrite loopIndices_closed by nia.
  rewrite Z.sub_0_r. apply map_ext. intro j. lia.
Qed.

Lemma chunkStarts_length (n chunkSize : Z) :
  0 < chunkSize -> 0 <= n ->
  Z.of_nat (List.length (chunkStarts n chunkSize)) = chunkCount n chunkSize.
Proof.
  intros Hc Hn. apply loopIndices_length; nia.
Qed.

Lemma chunkRanges_starts (n chunkSize : Z) :
  chunkRanges n chunkSize
  = map (fun i => sliceRange n i (i + chunkSize)) (chunkStarts n chunkSize).
Proof. reflexivity. Qed.

Section Chunked.

Variable brotliCompress : bytes -> EncodeOptions -> CodecResult.
Variable data : bytes.
Variables quality mode chunkSize lgwin : Z.
Variable progressCallback : option Callback.

Hypothesis chunkSize_pos : 0 < chunkSize.

Local Abbreviation o := (mkEncodeOptions mode quality lgwin).
Local Abbreviation passes :=
  (passEvents brotliCompress data quality mode chunkSize lgwin
     progressCallback).
Local Abbreviation compressed :=
  (compressedAt brotliCompress data quality mode chunkSize lgwin).
Local Abbreviation pushed :=
  (pushedAt brotliCompress data quality mode chunkSize lgwin).

Lemma encodeCalls_passes (indices : list Z) :
  encodeCalls (flat_map passes indices)
  = map (fun i => (chunkAt data chunkSize i, o)) indices.
Proof.
  induction indices as [|i rest IH]; [reflexivity |].
  change (flat_map passes (i :: rest)) with (passes i ++ flat_map passes rest).
  rewrite encodeCalls_app, IH.
  rewrite encodeCalls_passEvents. reflexivity.
Qed.

Lemma progressCalls_passes (indices : list Z) :
  progressCalls (flat_map passes indices)
  = match progressCallback with
    | Some _ =>
        map (fun i => (progressAt data chunkSize i, len (compressed i)))
            indices
    | None => []
    end.
Proof.
  induction indices as [|i rest IH].
  - destruct progressCallback; reflexivity.
  - change (flat_map passes (i :: rest))
      with (passes i ++ flat_map passes rest).
    rewrite progressCalls_app, IH.
    unfold passEvents. destruct progressCallback; reflexivity.
Qed.

(** With a positive chunk size and fuel for more tests than
    [ceil(n / chunkSize)], the loop of [streamCompress] comes to an end:
    either it stops early, or it has made a full pass at every index. *)
Lemma streamLoop_ends (fuel : nat) (s : State) :
  chunkCount (len data) chunkSize < Z.of_nat fuel ->
  exists evs,
    snd (streamLoop brotliCompress fuel data quality mode chunkSize lgwin
           progressCallback 0 [] s) = addEvents evs s
    /\ fst (streamLoop brotliCompress fuel data quality mode chunkSize lgwin
              progressCallback 0 [] s) <> Diverged
    /\ Z.of_nat (List.length (encodeCalls evs))
       <= chunkCount (len data) chunkSize
    /\ forall chunks,
         fst (streamLoop brotliCompress fuel data quality mode chunkSize
                lgwin progressCallback 0 [] s) = Returned chunks ->
         chunks = map pushed (chunkStarts (len data) chunkSize)
         /\ evs = flat_map passes (chunkStarts (len data) chunkSize).
Proof.
  intro Hfuel.
  pose proof (len_nonneg data) as Hn.
  pose proof (chunkCount_nonneg _ _ chunkSize_pos Hn) as Hk.
  pose proof (chunkCount_ceiling (len data) chunkSize chunkSize_pos) as Hceil.
  destruct fuel as [|fuel]; [simpl in Hfuel; lia |].
  assert (Hf : len data <= 0 + Z.of_nat fuel * chunkSize) by nia.
  destruct (streamLoop_complete brotliCompress data quality mode chunkSize
              lgwin progressCallback fuel 0 [] s Hf)
    as (evs & Hs & Hd & Hle & Hr).
  rewrite loopIndices_enough in Hle, Hr by lia.
  exists evs. split; [exact Hs |]. split; [exact Hd |]. split.
  - rewrite <- chunkStarts_length by lia. lia.
  - exact Hr.
Qed.

(** So does [streamCompress], after at most that many encoder calls. *)
Lemma streamCompress_terminates (fuel : nat) (s : State) :
  chunkCount (len data) chunkSize < Z.of_nat fuel ->
  exists evs,
    snd (streamCompress brotliCompress fuel data quality mode chunkSize
           lgwin progressCallback s) = addEvents evs s
    /\ fst (streamCompress brotliCompress fuel data quality mode chunkSize
              lgwin progressCallback s) <> Diverged
    /\ Z.of_nat (List.length (encodeCalls evs))
       <= chunkCount (len data) chunkSize.
Proof.
  intro Hfuel.
  destruct (streamLoop_ends fuel s Hfuel) as (evs & Hs & Hd & Hle & _).
  rewrite streamCompress_state, streamCompress_run.
  exists evs. split; [exact Hs |]. split; [| exact Hle].
  destruct (streamLoop brotliCompress fuel data quality mode chunkSize
              lgwin progressCallback 0 [] s) as [[chunks|msg|] s'];
    simpl in *; try congruence.
  destruct (allBytes chunks); discriminate.
Qed.

(** The loop itself, when it returns, has made a full pass at every
    index, whatever the fuel it was given. *)
Lemma streamLoop_returned (fuel : nat) (s s' : State)
    (chunks : list (option bytes)) :
  streamLoop brotliCompress fuel data quality mode chunkSize lgwin
    progressCallback 0 [] s = (Returned chunks, s') ->
  chunks = map pushed (chunkStarts (len data) chunkSize)
  /\ s' = addEvents (flat_map passes (chunkStarts (len data) chunkSize)) s.
Proof.
  intro H.
  set (big := Nat.max fuel (S (S (Z.to_nat (len data))))).
  assert (Hend : fst (streamLoop brotliCompress fuel data quality mode
                        chunkSize lgwin progressCallback 0 [] s)
                 <> Diverged) by (rewrite H; discriminate).
  pose proof (streamLoop_fuel_mono brotliCompress data quality mode
                chunkSize lgwin progressCallback fuel big 0 [] s
                ltac:(unfold big; lia) Hend) as Hmono.
  rewrite <- Hmono in H.
  pose proof (len_nonneg data) as Hn.
  pose proof (chunkCount_ceiling (len data) chunkSize chunkSize_pos) as Hceil.
  assert (Hbig : chunkCount (len data) chunkSize < Z.of_nat big)
    by (unfold big; nia).
  destruct (streamLoop_ends big s Hbig) as (evs & Hs & _ & _ & Hr).
  rewrite H in Hs, Hr. simpl in Hs, Hr.
  destruct (Hr chunks eq_refl) as [-> ->]. auto.
Qed.

(** When [streamCompress] returns, it has made a full pass at every index
    of the loop, the encoder has accepted every chunk, and its result is
    the outputs of the encoder laid end to end. *)
Lemma streamCompress_returned (fuel : nat) (s s' : State) (result : bytes) :
  streamCompress brotliCompress fuel data quality mode chunkSize lgwin
    progressCallback s = (Returned result, s') ->
  s' = addEvents (flat_map passes (chunkStarts (len data) chunkSize)) s
  /\ result = List.concat (map compressed (chunkStarts (len data) chunkSize))
  /\ Forall (fun i => brotliCompress (chunkAt data chunkSize i) o
                      = CodecOk (compressed i))
       (chunkStarts (len data) chunkSize).
Proof.
  rewrite streamCompress_run. intro H.
  destruct (streamLoop brotliCompress fuel data quality mode chunkSize
              lgwin progressCallback 0 [] s) as [[chunks|msg|] s1] eqn:E;
    try discriminate.
  apply streamLoop_returned in E. destruct E as [-> ->].
  destruct (allBytes (map pushed (chunkStarts (len data) chunkSize)))
    as [l|] eqn:El; [| discriminate].
  apply allBytes_pushed_inv in El. destruct El as [-> Hall].
  inversion H; subst. auto.
Qed.

(** With a positive chunk size, enough fuel, an encoder that accepts every
    chunk and a callback that never throws, [streamCompress] returns. *)
Lemma streamCompress_succeeds (fuel : nat) (s : State) :
  chunkCount (len data) chunkSize < Z.of_nat fuel ->
  Forall (fun i => exists output,
              brotliCompress (chunkAt data chunkSize i) o = CodecOk output)
    (chunkStarts (len data) chunkSize) ->
  (forall f p n, progressCallback = Some f -> f p n = None) ->
  exists result s',
    streamCompress brotliCompress fuel data quality mode chunkSize lgwin
      progressCallback s = (Returned result, s').
Proof.
  intros Hfuel Hok Hcb.
  pose proof (len_nonneg data) as Hn.
  pose proof (chunkCount_nonneg _ _ chunkSize_pos Hn) as Hk.
  pose proof (chunkCount_ceiling (len data) chunkSize chunkSize_pos) as Hceil.
  destruct fuel as [|fuel]; [simpl in Hfuel; lia |].
  assert (Hf : len data <= 0 + Z.of_nat fuel * chunkSize) by nia.
  pose proof Hok as Hok'.
  rewrite <- (loopIndices_enough (len data) chunkSize fuel) in Hok' by lia.
  destruct (streamLoop_succeeds brotliCompress data quality mode chunkSize
              lgwin progressCallback fuel 0 [] s Hf Hok' Hcb)
    as (chunks & s' & Hrun).
  rewrite streamCompress_run, Hrun.
  apply streamLoop_returned in Hrun. destruct Hrun as [-> _].
  rewrite (allBytes_pushed brotliCompress data quality mode chunkSize lgwin
             _ Hok).
  eexists. eexists. reflexivity.
Qed.

End Chunked.

(** ** A chunk size below 1 *)

(** When the index does not move forward, an encoder that accepts
    everything keeps the loop running: it uses up any fuel. *)
Lemma streamLoop_stuck
    (brotliCompress : bytes -> EncodeOptions -> CodecResult)
    (data : bytes) (quality mode chunkSize lgwin : Z) (fuel : nat) :
  chunkSize <= 0 ->
  (forall chunk o, exists output, brotliCompress chunk o = CodecOk output) ->
  forall (i : Z) (chunks : list (option bytes)) (s : State),
    i < len data ->
    fst (streamLoop brotliCompress fuel data quality mode chunkSize lgwin
           None i chunks s) = Diverged.
Proof.
  intros Hc Hok. induction fuel as [|fuel IH]; intros i chunks s Hi.
  - reflexivity.
  - simpl streamLoop. destruct (i <? len data) eqn:E;
      [| apply Z.ltb_ge in E; lia].
    unfold bind. rewrite streamStep_run.
    destruct (Hok (chunkAt data chunkSize i)
                (mkEncodeOptions mode quality lgwin)) as [output ->].
    apply IH. lia.
Qed.

(** X12.  [compressWithProgress] with a negative chunk size, no callback
    and an encoder that accepts everything does not come to an end on a
    non-empty input: the index of the loop never reaches the length. *)
Lemma negative_chunkSize_diverges
    (brotliCompress : bytes -> EncodeOptions -> CodecResult) (clock : nat -> Q)
    (fuel : nat) (data : bytes) (options : Options) (chunkSize : Z)
    (s : State) :
  chunkSize < 0 -> 0 < len data ->
  (forall chunk o, exists output, brotliCompress chunk o = CodecOk output) ->
  fst (compressWithProgress brotliCompress clock fuel data
         (withChunkSize chunkSize options) None s) = Diverged.
Proof.
  intros Hc Hn Hok.
  assert (Hpath : takesChunkedPath data (withChunkSize chunkSize options)
                  = true).
  { unfold takesChunkedPath, truthy.
    change (effectiveChunkSize (withChunkSize chunkSize options))
      with chunkSize.
    apply andb_true_intro. split.
    - apply negb_true_iff, Z.eqb_neq. lia.
    - rewrite Z.gtb_ltb. apply Z.ltb_lt. lia. }
  rewrite compressWithProgress_run, codecWork_chunked by exact Hpath.
  rewrite streamCompress_run.
  pose proof (streamLoop_stuck brotliCompress data
                (withDefault 6 (quality (withChunkSize chunkSize options)))
                (withDefault 0 (mode (withChunkSize chunkSize options)))
                (effectiveChunkSize (withChunkSize chunkSize options))
                (withDefault 22 (lgwin (withChunkSize chunkSize options)))
                fuel ltac:(unfold effectiveChunkSize; simpl; lia) Hok 0 [] (tick s) Hn)
    as Hd.
  destruct (streamLoop brotliCompress fuel data _ _ _ _ None 0 [] (tick s))
    as [[chunks|msg|] s']; simpl in Hd; try discriminate.
  reflexivity.
Qed.

(** ** Fractions *)

Lemma fraction_le_1 (x n : Z) :
  0 < n -> x <= n -> (inject_Z x / inject_Z n <= 1)%Q.
Proof.
  intros Hn Hx. apply Qle_shift_div_r.
  - change 0%Q with (inject_Z 0). rewrite <- Zlt_Qlt. exact Hn.
  - rewrite Qmult_1_l, <- Zle_Qle. exact Hx.
Qed.

Lemma fraction_ge_1 (x n : Z) :
  0 < n -> n <= x -> (1 <= inject_Z x / inject_Z n)%Q.
Proof.
  intros Hn Hx. apply Qle_shift_div_l.
  - change 0%Q with (inject_Z 0). rewrite <- Zlt_Qlt. exact Hn.
  - rewrite Qmult_1_l, <- Zle_Qle. exact Hx.
Qed.

Lemma fraction_mono (x y n : Z) :
  0 < n -> x <= y -> (inject_Z x / inject_Z n <= inject_Z y / inject_Z n)%Q.
Proof.
  intros Hn Hxy. unfold Qdiv. apply Qmult_le_compat_r.
  - rewrite <- Zle_Qle. exact Hxy.
  - apply Qinv_le_0_compat. change 0%Q with (inject_Z 0).
    rewrite <- Zle_Qle. lia.
Qed.

(** The reported fraction grows with the index. *)
Lemma progressAt_mono (data : bytes) (chunkSize i1 i2 : Z) :
  0 < len data -> i1 <= i2 ->
  (progressAt data chunkSize i1 <= progressAt data chunkSize i2)%Q.
Proof.
  intros Hn Hi. unfold progressAt.
  apply Q.min_le_compat_r. apply fraction_mono; lia.
Qed.

(** It is the part of the input that has been sliced so far. *)
Lemma progressAt_processed (data : bytes) (chunkSize i : Z) :
  0 < len data ->
  (progressAt data chunkSize i
   == inject_Z (Z.min (i + chunkSize) (len data)) / inject_Z (len data))%Q.
Proof.
  intro Hn. unfold progressAt.
  destruct (Z_le_gt_dec (i + chunkSize) (len data)) as [Hle|Hgt].
  - rewrite Z.min_l by exact Hle.
    apply Q.min_l. apply fraction_le_1; assumption.
  - rewrite Z.min_r by lia.
    rewrite Q.min_r by (apply fraction_ge_1; lia).
    unfold Qdiv. rewrite Qmult_inv_r; [reflexivity |].
    intro H. unfold Qeq in H. simpl in H. lia.
Qed.

(** Once the index has come within a chunk of the end, it is 1. *)
Lemma progressAt_final (data : bytes) (chunkSize i : Z) :
  0 < len data -> len data <= i + chunkSize ->
  (progressAt data chunkSize i == 1)%Q.
Proof.
  intros Hn Hi. unfold progressAt.
  apply Q.min_r. apply fraction_ge_1; assumption.
Qed.

(** ** Lists indexed by a counter *)

Lemma nth_map_seq {A} (g : nat -> A) (count j : nat) (d : A) :
  (j < count)%nat -> nth j (map g (seq 0 count)) d = g j.
Proof.
  intro Hj. rewrite (nth_indep _ d (g 0%nat))
    by (rewrite length_map, length_seq; exact Hj).
  rewrite map_nth, seq_nth by exact Hj. reflexivity.
Qed.

Lemma last_map_seq {A} (g : nat -> A) (count : nat) (d : A) :
  last (map g (seq 0 (S count))) d = g count.
Proof.
  rewrite seq_S, map_app. simpl. apply last_last.
Qed.

(** ** Failure *)

(** With a positive chunk size and enough fuel a call comes to an end. *)
Lemma compress_ends
    (brotliCompress : bytes -> EncodeOptions -> CodecResult) (clock : nat -> Q)
    (fuel : nat) (data : bytes) (options : Options)
    (progressCallback : option Callback) (s : State) :
  0 < effectiveChunkSize options ->
  chunkCount (len data) (effectiveChunkSize options) < Z.of_nat fuel ->
  fst (compressWithProgress brotliCompress clock fuel data options
         progressCallback s) <> Diverged.
Proof.
  intros Hc Hfuel. rewrite compressWithProgress_run.
  destruct (takesChunkedPath data options) eqn:Ep.
  - rewrite codecWork_chunked by exact Ep.
    destruct (streamCompress_terminates brotliCompress data
                (withDefault 6 (quality options))
                (withDefault 0 (mode options)) (effectiveChunkSize options)
                (withDefault 22 (lgwin options)) progressCallback Hc fuel
                (tick s) Hfuel) as (evs & _ & Hd & _).
    destruct (streamCompress brotliCompress fuel data _ _ _ _
                progressCallback (tick s)) as [[out|msg|] s1];
      simpl in *; congruence.
  - unfold codecWork. rewrite Ep, callCompress_run.
    destruct (brotliCompress data _); simpl; discriminate.
Qed.

(** A call that came to an end without an artifact threw the wrapped error
    of line 36. *)
Lemma compress_failed_is_wrapped
    (brotliCompress : bytes -> EncodeOptions -> CodecResult) (clock : nat -> Q)
    (fuel : nat) (data : bytes) (options : Options)
    (progressCallback : option Callback) (s : State) :
  (forall artifact,
      fst (compressWithProgress brotliCompress clock fuel data options
             progressCallback s) <> Returned artifact) ->
  fst (compressWithProgress brotliCompress clock fuel data options
         progressCallback s) <> Diverged ->
  exists cause,
    fst (compressWithProgress brotliCompress clock fuel data options
           progressCallback s)
    = Thrown ("Compression failed: " ++ cause)%string.
Proof.
  intros Hr Hd.
  pose proof (compress_error_is_wrapped brotliCompress clock fuel data
                options progressCallback s) as Hw.
  destruct (fst (compressWithProgress brotliCompress clock fuel data options
                   progressCallback s)) as [artifact|msg|].
  - destruct (Hr artifact eq_refl).
  - destruct (Hw msg eq_refl) as [cause ->]. exists cause. reflexivity.
  - destruct (Hd eq_refl).
Qed.

(** A chunk of the loop that the encoder does not turn into bytes: the call
    hands out no artifact and lines 30 to 32 are not reached. *)
Lemma chunked_failure
    (brotliCompress : bytes -> EncodeOptions -> CodecResult) (clock : nat -> Q)
    (fuel : nat) (data : bytes) (options : Options)
    (progressCallback : option Callback) (s : State)
    (chunk : bytes) (o : EncodeOptions) :
  takesChunkedPath data options = true ->
  In (EvEncode chunk o)
     (emitted s (snd (compressWithProgress brotliCompress clock fuel data
                        options progressCallback s))) ->
  (forall output, brotliCompress chunk o <> CodecOk output) ->
  performanceMetrics
    (snd (compressWithProgress brotliCompress clock fuel data options
            progressCallback s))
  = performanceMetrics s
  /\ (forall artifact,
         fst (compressWithProgress brotliCompress clock fuel data options
                progressCallback s) <> Returned artifact)
  /\ (forall msg,
         brotliCompress chunk o = CodecError msg ->
         fst (compressWithProgress brotliCompress clock fuel data options
                progressCallback s)
         = Thrown ("Compression failed: " ++ msg)%string)
  /\ (brotliCompress chunk o = CodecNull -> progressCallback <> None ->
      fst (compressWithProgress brotliCompress clock fuel data options
             progressCallback s)
      = Thrown ("Compression failed: " ++ nullLengthError)%string).
Proof.
  intro Ep. rewrite compress_emitted, compressWithProgress_run.
  destruct (codecWork_chunked_failure brotliCompress fuel data options
              progressCallback (tick s) Ep) as (evs & Hs & Hf).
  rewrite Hs, emitted_addEvents. intros Hin Hfail.
  destruct (Hf _ _ Hin Hfail) as (Hnr & Herr & Hnull).
  destruct (codecWork brotliCompress fuel data options progressCallback
              (tick s)) as [[[out|]|cause|] s'] eqn:E; simpl in *.
  - destruct (Hnr (Some out) eq_refl).
  - destruct (Hnr None eq_refl).
  - subst s'. split; [reflexivity |]. split; [discriminate |]. split.
    + intros msg Em. specialize (Herr msg Em). congruence.
    + intros En Hc. specialize (Hnull En Hc). congruence.
  - subst s'. split; [reflexivity |]. split; [discriminate |]. split.
    + intros msg Em. specialize (Herr msg Em). discriminate.
    + intros En Hc. specialize (Hnull En Hc). discriminate.
Qed.

(** C6.  An encoder call made during [compressWithProgress] that does not
    hand back bytes (the encoder throws, or returns [null]) keeps the call
    from returning an artifact.  When the encoder threw, the call fails with
    "Compression failed: " followed by the encoder's message and the metrics
    are what they were before the call.  On the chunked path, where the
    calls are per chunk, the metrics are what they were before the call
    whatever the failure was; a [null] fails the call with the wrapped
    [TypeError] at once when there is a callback; and with a positive chunk
    size the call always comes to an end, with "Compression failed: " and a
    cause.  The call on the whole buffer of the other path fails in the
    same way. *)
Theorem failed_encode_fails_compress
    (brotliCompress : bytes -> EncodeOptions -> CodecResult) (clock : nat -> Q)
    (fuel : nat) (data : bytes) (options : Options)
    (progressCallback : option Callback) (s : State)
    (chunk : bytes) (o : EncodeOptions) :
  In (EvEncode chunk o)
     (emitted s (snd (compressWithProgress brotliCompress clock fuel data
                        options progressCallback s))) ->
  (forall output, brotliCompress chunk o <> CodecOk output) ->
  (forall artifact,
      fst (compressWithProgress brotliCompress clock fuel data options
             progressCallback s) <> Returned artifact)
  /\ (forall msg,
         brotliCompress chunk o = CodecError msg ->
         fst (compressWithProgress brotliCompress clock fuel data options
                progressCallback s)
         = Thrown ("Compression failed: " ++ msg)%string
         /\ performanceMetrics
              (snd (compressWithProgress brotliCompress clock fuel data
                      options progressCallback s))
            = performanceMetrics s)
  /\ (takesChunkedPath data options = true ->
      performanceMetrics
        (snd (compressWithProgress brotliCompress clock fuel data options
                progressCallback s))
      = performanceMetrics s
      /\ (brotliCompress chunk o = CodecNull -> progressCallback <> None ->
          fst (compressWithProgress brotliCompress clock fuel data options
                 progressCallback s)
          = Thrown ("Compression failed: " ++ nullLengthError)%string)
      /\ (0 < effectiveChunkSize options ->
          chunkCount (len data) (effectiveChunkSize options)
          < Z.of_nat fuel ->
          exists cause,
            fst (compressWithProgress brotliCompress clock fuel data options
                   progressCallback s)
            = Thrown ("Compression failed: " ++ cause)%string))
  /\ (takesChunkedPath data options = false ->
      exists cause,
        fst (compressWithProgress brotliCompress clock fuel data options
               progressCallback s)
        = Thrown ("Compression failed: " ++ cause)%string).
Proof.
  intros Hin Hfail.
  destruct (takesChunkedPath data options) eqn:Ep.
  - destruct (chunked_failure brotliCompress clock fuel data options
                progressCallback s chunk o Ep Hin Hfail)
      as (Hm & Hnr & Herr & Hnull).
    split; [exact Hnr |]. split; [| split; [| discriminate]].
    + intros msg Em. split; [exact (Herr msg Em) | exact Hm].
    + intros _. split; [exact Hm |]. split; [exact Hnull |].
      intros Hc Hfuel.
      apply compress_failed_is_wrapped; [exact Hnr |].
      apply compress_ends; assumption.
  - rewrite one_shot_emitted in Hin by exact Ep.
    destruct Hin as [Hin|[]]. inversion Hin; subst chunk o.
    rewrite compressWithProgress_one_shot by exact Ep.
    destruct (brotliCompress data (encodeOptionsOf options))
      as [output|cause|] eqn:E.
    + destruct (Hfail output eq_refl).
    + split; [discriminate |]. split; [| split; [discriminate |]].
      * intros msg Em. inversion Em; subst. split; reflexivity.
      * intros _. exists cause. reflexivity.
    + split; [discriminate |]. split; [| split; [discriminate |]].
      * intros msg Em. discriminate.
      * intros _. exists nullLengthError. reflexivity.
Qed.

(** Five chunks and no callback; for the third the encoder hands back
    [null].  The processor has compressed something before. *)
Lemma failed_encode_fails_compress_witness :
  fst (compressWithProgress nullingCompress sampleClock 9
         [x00; x01; xff; x03; x04] (withChunkSize 1 noOptions) None
         (snd (compressWithProgress nullingCompress sampleClock 0 [x07; x08]
                 noOptions None newProcessor)))
  = Thrown ("Compression failed: " ++ nullLengthError)%string
  /\ performanceMetrics
       (snd (compressWithProgress nullingCompress sampleClock 9
               [x00; x01; xff; x03; x04] (withChunkSize 1 noOptions) None
               (snd (compressWithProgress nullingCompress sampleClock 0
                       [x07; x08] noOptions None newProcessor))))
     = mkMetrics (sampleClock 1 - sampleClock 0)%Q 0%Q 2 3.
Proof.
  destruct (failed_encode_fails_compress nullingCompress sampleClock 9
              [x00; x01; xff; x03; x04] (withChunkSize 1 noOptions) None
              (snd (compressWithProgress nullingCompress sampleClock 0
                      [x07; x08] noOptions None newProcessor))
              [xff] (mkEncodeOptions 0 6 22)) as (_ & _ & H & _).
  - vm_compute. right. right. right. right. left. reflexivity.
  - intros output E. discriminate E.
  - destruct (H eq_refl) as (Hm & _ & _).
    split; [vm_compute; reflexivity | exact Hm].
Defined.

(** ** Chunk boundaries *)

(** C4.  For a positive input length and a positive chunk size, the loop of
    [streamCompress] slices [ceil(n / chunkSize)] ranges; range [j] is
    [j chunkSize, min((j + 1) chunkSize, n)).  So the ranges start at 0,
    each one begins where the one before ended, the last one ends at [n],
    every range but the last has length [chunkSize], and the last has a
    length in (0, chunkSize].  For length 10 and chunk size 3 they are
    [0,3), [3,6), [6,9), [9,10).  On an input of length [n],
    [streamCompress] returns when the encoder accepts the chunk of every
    range, the callback does not throw and there is fuel for the loop; and
    whenever it returns, the chunks it has handed to the encoder are those
    of the ranges, one call per range and in their order. *)
Theorem chunk_ranges_cover (n chunkSize : Z) :
  0 < n -> 0 < chunkSize ->
  Z.of_nat (List.length (chunkRanges n chunkSize)) = chunkCount n chunkSize
  /\ (forall j,
         (j < List.length (chunkRanges n chunkSize))%nat ->
         nth j (chunkRanges n chunkSize) (0, 0)
         = (Z.of_nat j * chunkSize, Z.min ((Z.of_nat j + 1) * chunkSize) n))
  /\ fst (nth 0 (chunkRanges n chunkSize) (0, 0)) = 0
  /\ (forall j,
         (S j < List.length (chunkRanges n chunkSize))%nat ->
         snd (nth j (chunkRanges n chunkSize) (0, 0))
         = fst (nth (S j) (chunkRanges n chunkSize) (0, 0))
         /\ snd (nth j (chunkRanges n chunkSize) (0, 0))
            - fst (nth j (chunkRanges n chunkSize) (0, 0)) = chunkSize)
  /\ snd (last (chunkRanges n chunkSize) (0, 0)) = n
  /\ 0 < snd (last (chunkRanges n chunkSize) (0, 0))
         - fst (last (chunkRanges n chunkSize) (0, 0)) <= chunkSize
  /\ chunkRanges 10 3 = [(0, 3); (3, 6); (6, 9); (9, 10)]
  /\ forall (brotliCompress : bytes -> EncodeOptions -> CodecResult)
            (fuel : nat) (data : bytes) (quality mode lgwin : Z)
            (progressCallback : option Callback) (s : State),
       len data = n ->
       (chunkCount n chunkSize < Z.of_nat fuel ->
        Forall (fun r => exists output,
                    brotliCompress (sublist r data)
                      (mkEncodeOptions mode quality lgwin)
                    = CodecOk output) (chunkRanges n chunkSize) ->
        (forall f p k, progressCallback = Some f -> f p k = None) ->
        exists result s',
          streamCompress brotliCompress fuel data quality mode chunkSize
            lgwin progressCallback s = (Returned result, s'))
       /\ forall result s',
            streamCompress brotliCompress fuel data quality mode chunkSize
              lgwin progressCallback s = (Returned result, s') ->
            encodeCalls (emitted s s')
            = map (fun r => (sublist r data,
                             mkEncodeOptions mode quality lgwin))
                  (chunkRanges n chunkSize).
Proof.
  intros Hn Hc.
  pose proof (chunkCount_ceiling n chunkSize Hc) as Hceil.
  destruct (chunkCount_step n chunkSize Hc Hn) as [Hstep Hpos].
  set (g := fun j : nat =>
              (Z.of_nat j * chunkSize, Z.min ((Z.of_nat j + 1) * chunkSize) n)).
  assert (Hclosed : chunkRanges n chunkSize
                    = map g (seq 0 (Z.to_nat (chunkCount n chunkSize))))
    by (apply chunkRanges_closed; lia).
  assert (Hlen : List.length (chunkRanges n chunkSize)
                 = Z.to_nat (chunkCount n chunkSize))
    by (rewrite Hclosed, length_map, length_seq; reflexivity).
  assert (Hnth : forall j,
             (j < List.length (chunkRanges n chunkSize))%nat ->
             nth j (chunkRanges n chunkSize) (0, 0) = g j).
  { intros j Hj. rewrite Hclosed. apply nth_map_seq. lia. }
  assert (Hlast : last (chunkRanges n chunkSize) (0, 0)
                  = g (Z.to_nat (chunkCount (n - chunkSize) chunkSize))).
  { rewrite Hclosed, Hstep.
    replace (Z.to_nat (1 + chunkCount (n - chunkSize) chunkSize))
      with (S (Z.to_nat (chunkCount (n - chunkSize) chunkSize))) by lia.
    apply last_map_seq. }
  split; [lia |]. split; [exact Hnth |]. split.
  { rewrite Hnth by lia. reflexivity. }
  split.
  { intros j Hj. rewrite !Hnth by lia. unfold g. cbn [fst snd].
    rewrite Nat2Z.inj_succ. nia. }
  split; [rewrite Hlast; unfold g; cbn [fst snd]; nia |].
  split; [rewrite Hlast; unfold g; cbn [fst snd]; nia |].
  split; [reflexivity |].
  intros brotliCompress fuel data quality mode lgwin progressCallback s
    Hdata.
  split.
  - intros Hfuel Hok Hcb. rewrite <- Hdata in Hfuel.
    apply streamCompress_succeeds; [exact Hc | exact Hfuel | | exact Hcb].
    rewrite chunkRanges_starts, Forall_map in Hok. rewrite Hdata.
    revert Hok. apply Forall_impl. intros i [output Hi].
    exists output. unfold chunkAt, slice. rewrite Hdata. exact Hi.
  - intros result s' Hrun.
    apply streamCompress_returned in Hrun; [| exact Hc].
    destruct Hrun as (-> & _ & _).
    rewrite emitted_addEvents, encodeCalls_passes, chunkRanges_starts, map_map.
    rewrite Hdata. apply map_ext. intro i.
    unfold chunkAt, slice. rewrite Hdata. reflexivity.
Qed.

(** Ten bytes in chunks of three, with an encoder that accepts them. *)
Lemma chunk_ranges_cover_witness :
  0 < 10 /\ 0 < 3
  /\ Z.of_nat (List.length (chunkRanges 10 3)) = chunkCount 10 3
  /\ snd (last (chunkRanges 10 3) (0, 0)) = 10
  /\ exists result s',
       streamCompress storeCompress 5
         [x00; x01; x02; x03; x04; x05; x06; x07; x08; x09] 6 0 3 22 None
         newProcessor = (Returned result, s')
       /\ map fst (encodeCalls (emitted newProcessor s'))
          = [[x00; x01; x02]; [x03; x04; x05]; [x06; x07; x08]; [x09]].
Proof.
  split; [lia |]. split; [lia |].
  destruct (chunk_ranges_cover 10 3 ltac:(lia) ltac:(lia))
    as (H1 & _ & _ & _ & H5 & _ & _ & H8).
  split; [exact H1 |]. split; [exact H5 |].
  destruct (H8 storeCompress 5%nat
              [x00; x01; x02; x03; x04; x05; x06; x07; x08; x09] 6 0 22 None
              newProcessor eq_refl) as [Hret Hcalls].
  destruct Hret as (result & s' & Hrun).
  - vm_compute. reflexivity.
  - vm_compute. repeat constructor; eexists; reflexivity.
  - intros f p k Hf. discriminate Hf.
  - exists result, s'. split; [exact Hrun |].
    rewrite (Hcalls result s' Hrun). vm_compute. reflexivity.
Defined.

(** ** Termination *)

Lemma one_shot_fits (data : bytes) (options : Options) :
  0 < effectiveChunkSize options ->
  takesChunkedPath data options = false ->
  len data <= effectiveChunkSize options.
Proof.
  intros Hc E. unfold takesChunkedPath, truthy in E.
  apply andb_false_iff in E. destruct E as [E|E].
  - apply negb_false_iff, Z.eqb_eq in E. lia.
  - rewrite Z.gtb_ltb in E. apply Z.ltb_ge in E. exact E.
Qed.

(** C10.  With a chunk size of at least 1, [compressWithProgress] comes to
    an end on every input, given fuel for one more loop test than
    [ceil(len(d) / chunkSize)].  The index of the loop takes the values
    [0, chunkSize, 2 chunkSize, ...], one per pass and
    [ceil(len(d) / chunkSize)] of them; the loop never makes more encoder
    calls than that, and makes exactly that many when it runs to its
    return, which it does when the encoder accepts every chunk and the
    callback does not throw.  A whole call that returns has made that many
    encoder calls too, or one on an empty input; and it returns when the
    encoder accepts what it is given and the callback does not throw. *)
Theorem chunked_loop_terminates
    (brotliCompress : bytes -> EncodeOptions -> CodecResult) (clock : nat -> Q)
    (fuel : nat) (data : bytes) (options : Options) (chunkSize : Z)
    (progressCallback : option Callback) (s : State) :
  1 <= chunkSize ->
  chunkCount (len data) chunkSize < Z.of_nat fuel ->
  fst (compressWithProgress brotliCompress clock fuel data
         (withChunkSize chunkSize options) progressCallback s) <> Diverged
  /\ chunkStarts (len data) chunkSize
     = map (fun j => Z.of_nat j * chunkSize)
           (seq 0 (Z.to_nat (chunkCount (len data) chunkSize)))
  /\ (forall quality mode lgwin,
         fst (streamCompress brotliCompress fuel data quality mode chunkSize
                lgwin progressCallback s) <> Diverged
         /\ Z.of_nat
              (List.length
                 (encodeCalls
                    (emitted s
                       (snd (streamCompress brotliCompress fuel data quality
                               mode chunkSize lgwin progressCallback s)))))
            <= chunkCount (len data) chunkSize
         /\ (forall result,
              fst (streamCompress brotliCompress fuel data quality mode
                     chunkSize lgwin progressCallback s) = Returned result ->
              Z.of_nat
                (List.length
                   (encodeCalls
                      (emitted s
                         (snd (streamCompress brotliCompress fuel data quality
                                 mode chunkSize lgwin progressCallback s)))))
              = chunkCount (len data) chunkSize)
         /\ (Forall (fun i => exists output,
                         brotliCompress (slice data i (i + chunkSize))
                           (mkEncodeOptions mode quality lgwin)
                         = CodecOk output)
               (chunkStarts (len data) chunkSize) ->
             (forall f p n, progressCallback = Some f -> f p n = None) ->
             (exists result,
                 fst (streamCompress brotliCompress fuel data quality mode
                        chunkSize lgwin progressCallback s)
                 = Returned result)
             /\ Z.of_nat
                  (List.length
                     (encodeCalls
                        (emitted s
                           (snd (streamCompress brotliCompress fuel data
                                   quality mode chunkSize lgwin
                                   progressCallback s)))))
                = chunkCount (len data) chunkSize))
  /\ (forall artifact,
         fst (compressWithProgress brotliCompress clock fuel data
                (withChunkSize chunkSize options) progressCallback s)
         = Returned artifact ->
         Z.of_nat
           (List.length
              (encodeCalls
                 (emitted s
                    (snd (compressWithProgress brotliCompress clock fuel data
                            (withChunkSize chunkSize options)
                            progressCallback s)))))
         = Z.max 1 (chunkCount (len data) chunkSize))
  /\ ((forall c, exists output,
          brotliCompress c (encodeOptionsOf (withChunkSize chunkSize options))
          = CodecOk output) ->
      (forall f p n, progressCallback = Some f -> f p n = None) ->
      (exists artifact,
          fst (compressWithProgress brotliCompress clock fuel data
                 (withChunkSize chunkSize options) progressCallback s)
          = Returned artifact)
      /\ Z.of_nat
           (List.length
              (encodeCalls
                 (emitted s
                    (snd (compressWithProgress brotliCompress clock fuel data
                            (withChunkSize chunkSize options)
                            progressCallback s)))))
         = Z.max 1 (chunkCount (len data) chunkSize)).
Proof.
  intros Hc Hfuel.
  assert (Hpos : 0 < chunkSize) by lia.
  pose proof (len_nonneg data) as Hn.
  pose proof (chunkCount_ceiling (len data) chunkSize Hpos) as Hceil.
  assert (Hloop : forall quality mode lgwin s0,
             fst (streamCompress brotliCompress fuel data quality mode
                    chunkSize lgwin progressCallback s0) <> Diverged
             /\ Z.of_nat
                  (List.length
                     (encodeCalls
                        (emitted s0
                           (snd (streamCompress brotliCompress fuel data
                                   quality mode chunkSize lgwin
                                   progressCallback s0)))))
                <= chunkCount (len data) chunkSize
             /\ forall result,
                  fst (streamCompress brotliCompress fuel data quality mode
                         chunkSize lgwin progressCallback s0)
                  = Returned result ->
                  Z.of_nat
                    (List.length
                       (encodeCalls
                          (emitted s0
                             (snd (streamCompress brotliCompress fuel data
                                     quality mode chunkSize lgwin
                                     progressCallback s0)))))
                  = chunkCount (len data) chunkSize).
  2:{ split; [| split; [apply chunkStarts_closed; exact Hpos |]].
      { apply compress_ends; assumption. }
      assert (Hcount : forall artifact,
                 fst (compressWithProgress brotliCompress clock fuel data
                        (withChunkSize chunkSize options) progressCallback s)
                 = Returned artifact ->
                 Z.of_nat
                   (List.length
                      (encodeCalls
                         (emitted s
                            (snd (compressWithProgress brotliCompress clock
                                    fuel data
                                    (withChunkSize chunkSize options)
                                    progressCallback s)))))
                 = Z.max 1 (chunkCount (len data) chunkSize)).
      { intros artifact Hret.
        destruct (takesChunkedPath data (withChunkSize chunkSize options))
          eqn:E.
        - rewrite compress_emitted.
          rewrite compressWithProgress_run in Hret.
          rewrite codecWork_chunked in * by exact E.
          apply takesChunkedPath_true in E.
          change (effectiveChunkSize (withChunkSize chunkSize options))
            with chunkSize in *.
          change (quality (withChunkSize chunkSize options))
            with (quality options) in *.
          change (mode (withChunkSize chunkSize options))
            with (mode options) in *.
          change (lgwin (withChunkSize chunkSize options))
            with (lgwin options) in *.
          destruct (Hloop (withDefault 6 (quality options))
                      (withDefault 0 (mode options))
                      (withDefault 22 (lgwin options)) (tick s))
            as (_ & _ & Hr).
          destruct (streamCompress brotliCompress fuel data _ _ chunkSize _
                      progressCallback (tick s)) as [[out|msg|] s1];
            simpl in Hret; try discriminate.
          cbn [snd] in *. rewrite (Hr out eq_refl). nia.
        - rewrite one_shot_emitted by exact E.
          apply one_shot_fits in E; [| exact Hpos].
          change (effectiveChunkSize (withChunkSize chunkSize options))
            with chunkSize in E.
          change (Z.of_nat (List.length (encodeCalls
                    [EvEncode data
                       (encodeOptionsOf (withChunkSize chunkSize options))])))
            with 1.
          nia. }
      split.
      { intros quality mode lgwin.
        destruct (Hloop quality mode lgwin s) as (Hd & Hle & Hr).
        split; [exact Hd |]. split; [exact Hle |]. split; [exact Hr |].
        intros Hok Hcb.
        destruct (streamCompress_succeeds brotliCompress data quality mode
                    chunkSize lgwin progressCallback Hpos fuel s Hfuel Hok
                    Hcb) as (result & s' & Hrun).
        split; [exists result; rewrite Hrun; reflexivity |].
        apply (Hr result). rewrite Hrun. reflexivity. }
      split; [exact Hcount |].
      intros Hok Hcb.
      assert (Hret : exists artifact,
                 fst (compressWithProgress brotliCompress clock fuel data
                        (withChunkSize chunkSize options) progressCallback s)
                 = Returned artifact).
      { destruct (takesChunkedPath data (withChunkSize chunkSize options))
          eqn:E.
        - rewrite compressWithProgress_run, codecWork_chunked by exact E.
          change (effectiveChunkSize (withChunkSize chunkSize options))
            with chunkSize.
          destruct (streamCompress_succeeds brotliCompress data
                      (withDefault 6 (quality (withChunkSize chunkSize
                                                 options)))
                      (withDefault 0 (mode (withChunkSize chunkSize options)))
                      chunkSize
                      (withDefault 22 (lgwin (withChunkSize chunkSize
                                                options)))
                      progressCallback Hpos fuel (tick s) Hfuel)
            as (result & s' & Hrun).
          + apply Forall_forall. intros i _. apply Hok.
          + exact Hcb.
          + rewrite Hrun. exists result. reflexivity.
        - rewrite compressWithProgress_one_shot by exact E.
          destruct (Hok data) as [output ->]. exists output. reflexivity. }
      split; [exact Hret |].
      destruct Hret as [artifact Hret]. exact (Hcount artifact Hret). }
  { intros quality mode lgwin s0.
    destruct (streamCompress_terminates brotliCompress data quality mode
                chunkSize lgwin progressCallback Hpos fuel s0 Hfuel)
      as (evs & Hs & Hd & Hle).
    split; [exact Hd |]. split.
    - rewrite Hs, emitted_addEvents. exact Hle.
    - intros result Hr.
      destruct (streamCompress brotliCompress fuel data quality mode
                  chunkSize lgwin progressCallback s0) as [r s1] eqn:Erun.
      simpl in Hr. subst r.
      apply streamCompress_returned in Erun; [| exact Hpos].
      destruct Erun as (-> & _ & _). simpl snd.
      rewrite emitted_addEvents, encodeCalls_passes, length_map.
      apply chunkStarts_length; lia. }
Qed.

(** Seven bytes in chunks of three: three encoder calls, and the call
    returns. *)
Lemma chunked_loop_terminates_witness :
  1 <= 3 /\ chunkCount (len [x0a; x0b; x0c; x0d; x0e; x0f; x10]) 3 < Z.of_nat 4
  /\ (exists artifact,
         fst (compressWithProgress storeCompress sampleClock 4
                [x0a; x0b; x0c; x0d; x0e; x0f; x10]
                (withChunkSize 3 noOptions) None newProcessor)
         = Returned artifact)
  /\ Z.of_nat
       (List.length
          (encodeCalls
             (emitted newProcessor
                (snd (compressWithProgress storeCompress sampleClock 4
                        [x0a; x0b; x0c; x0d; x0e; x0f; x10]
                        (withChunkSize 3 noOptions) None newProcessor)))))
     = 3.
Proof.
  split; [lia |]. split; [reflexivity |].
  destruct (chunked_loop_terminates storeCompress sampleClock 4
              [x0a; x0b; x0c; x0d; x0e; x0f; x10] noOptions 3 None
              newProcessor ltac:(lia) eq_refl) as (_ & _ & _ & _ & H).
  destruct H as [Hret Hcount].
  - intro c. exists (x01 :: c). reflexivity.
  - intros f p n Hf. discriminate Hf.
  - split; [exact Hret | exact Hcount].
Defined.

(** ** Progress *)

(** C5.  Take a chunked call with a callback.  If the encoder accepts every
    chunk, the callback never throws and there is fuel for the loop, the
    call returns.  Whenever it returns, each pass has compressed its chunk,
    called the callback once and yielded, in that order; the callback got
    [min((i + chunkSize) / len(d), 1)], which is the part of the input
    sliced so far, and the length of the output the encoder gave for that
    chunk.  The fractions never decrease and the last one is 1. *)
Theorem progress_reports
    (brotliCompress : bytes -> EncodeOptions -> CodecResult) (clock : nat -> Q)
    (fuel : nat) (data : bytes) (options : Options) (f : Callback)
    (s : State) :
  0 < effectiveChunkSize options ->
  effectiveChunkSize options < len data ->
  let chunkSize := effectiveChunkSize options in
  let o := encodeOptionsOf options in
  let starts := chunkStarts (len data) chunkSize in
  let output := compressedAt brotliCompress data
                  (withDefault 6 (quality options))
                  (withDefault 0 (mode options)) chunkSize
                  (withDefault 22 (lgwin options)) in
  let fraction i :=
    Qmin (inject_Z (i + chunkSize) / inject_Z (len data)) 1 in
  (chunkCount (len data) chunkSize < Z.of_nat fuel ->
   Forall (fun i => exists compressedChunk,
               brotliCompress (slice data i (i + chunkSize)) o
               = CodecOk compressedChunk) starts ->
   (forall progress n, f progress n = None) ->
   exists artifact s',
     compressWithProgress brotliCompress clock fuel data options (Some f) s
     = (Returned artifact, s'))
  /\ forall artifact s',
       compressWithProgress brotliCompress clock fuel data options (Some f) s
       = (Returned artifact, s') ->
       let fractions := map fst (progressCalls (emitted s s')) in
       emitted s s'
       = flat_map (fun i => [EvEncode (slice data i (i + chunkSize)) o;
                             EvProgress (fraction i) (len (output i));
                             EvYield]) starts
       /\ Forall (fun i => brotliCompress (slice data i (i + chunkSize)) o
                           = CodecOk (output i)) starts
       /\ progressCalls (emitted s s')
          = map (fun i => (fraction i, len (output i))) starts
       /\ List.length (progressCalls (emitted s s'))
          = List.length (encodeCalls (emitted s s'))
       /\ Z.of_nat (List.length (progressCalls (emitted s s')))
          = chunkCount (len data) chunkSize
       /\ (forall i, (fraction i
                      == inject_Z (Z.min (i + chunkSize) (len data))
                         / inject_Z (len data))%Q)
       /\ (forall j k,
              (j <= k < List.length fractions)%nat ->
              (nth j fractions 0 <= nth k fractions 0)%Q)
       /\ (last fractions 0 == 1)%Q.
Proof.
  intros Hc Hlt. cbv zeta.
  set (chunkSize := effectiveChunkSize options) in *.
  set (q := withDefault 6 (quality options)).
  set (m := withDefault 0 (mode options)).
  set (w := withDefault 22 (lgwin options)).
  pose proof (len_nonneg data) as Hn.
  pose proof (chunkCount_ceiling (len data) chunkSize Hc) as Hceil.
  destruct (chunkCount_step (len data) chunkSize Hc ltac:(lia)) as [Hstep Hpos].
  assert (Hpath : takesChunkedPath data options = true).
  { unfold takesChunkedPath, truthy. fold chunkSize.
    apply andb_true_intro. split.
    - apply negb_true_iff, Z.eqb_neq. lia.
    - rewrite Z.gtb_ltb. apply Z.ltb_lt. exact Hlt. }
  split.
  { intros Hfuel Hok Hcb.
    destruct (streamCompress_succeeds brotliCompress data q m chunkSize w
                (Some f) Hc fuel (tick s) Hfuel Hok) as (result & s1 & Hrun).
    { intros f' p n Hf'. inversion Hf'; subst. apply Hcb. }
    rewrite compressWithProgress_run, codecWork_chunked by exact Hpath.
    fold chunkSize q m w. rewrite Hrun.
    eexists. eexists. reflexivity. }
  intros artifact s' Hrun.
  assert (Hev : emitted s s'
                = flat_map (passEvents brotliCompress data q m chunkSize w
                              (Some f)) (chunkStarts (len data) chunkSize)
                /\ Forall (fun i => brotliCompress (chunkAt data chunkSize i)
                                      (mkEncodeOptions m q w)
                                    = CodecOk (compressedAt brotliCompress data
                                                 q m chunkSize w i))
                     (chunkStarts (len data) chunkSize)).
  { rewrite compressWithProgress_run, codecWork_chunked in Hrun
      by exact Hpath.
    fold chunkSize q m w in Hrun.
    destruct (streamCompress brotliCompress fuel data q m chunkSize w
                (Some f) (tick s)) as [[out|msg|] s1] eqn:E;
      try discriminate.
    inversion Hrun; subst.
    apply streamCompress_returned in E; [| exact Hc].
    destruct E as (-> & _ & Hall). split; [| exact Hall].
    apply emitted_of_trace. reflexivity. }
  destruct Hev as [Hev Hall].
  assert (Hprog : progressCalls (emitted s s')
                  = map (fun i => (progressAt data chunkSize i,
                                   len (compressedAt brotliCompress data q m
                                          chunkSize w i)))
                        (chunkStarts (len data) chunkSize)).
  { rewrite Hev. apply (progressCalls_passes brotliCompress data q m chunkSize
                          w (Some f)). }
  assert (Henc : List.length (encodeCalls (emitted s s'))
                 = List.length (chunkStarts (len data) chunkSize)).
  { rewrite Hev, encodeCalls_passes, length_map. reflexivity. }
  assert (Hfr : map fst (progressCalls (emitted s s'))
                = map (fun j => progressAt data chunkSize
                                  (Z.of_nat j * chunkSize))
                      (seq 0 (Z.to_nat (chunkCount (len data) chunkSize)))).
  { rewrite Hprog, map_map. cbn [fst].
    rewrite chunkStarts_closed by exact Hc. rewrite map_map. reflexivity. }
  split; [exact Hev |]. split; [exact Hall |]. split; [exact Hprog |].
  split; [rewrite Hprog, length_map, Henc; reflexivity |].
  split; [rewrite Hprog, length_map; apply chunkStarts_length; lia |].
  split; [intro i; apply progressAt_processed; lia |].
  rewrite Hfr. split.
  - intros j k Hjk. rewrite length_map, length_seq in Hjk.
    rewrite !nth_map_seq by lia.
    apply progressAt_mono; nia.
  - rewrite Hstep.
    replace (Z.to_nat (1 + chunkCount (len data - chunkSize) chunkSize))
      with (S (Z.to_nat (chunkCount (len data - chunkSize) chunkSize)))
      by lia.
    rewrite last_map_seq. apply progressAt_final; nia.
Qed.

(** Ten chunks of one byte. *)
Lemma progress_reports_witness :
  map fst
    (progressCalls
       (emitted newProcessor
          (snd (compressWithProgress storeCompress sampleClock 11
                  [x00; x01; x02; x03; x04; x05; x06; x07; x08; x09]
                  (withChunkSize 1 noOptions) (Some listen) newProcessor))))
  = map (fun i => Qmin (inject_Z (i + 1) / inject_Z 10) 1)
        (chunkStarts 10 1)
  /\ (last
        (map fst
           (progressCalls
              (emitted newProcessor
                 (snd (compressWithProgress storeCompress sampleClock 11
                         [x00; x01; x02; x03; x04; x05; x06; x07; x08; x09]
                         (withChunkSize 1 noOptions) (Some listen)
                         newProcessor))))) 0 == 1)%Q.
Proof.
  destruct (progress_reports storeCompress sampleClock 11
              [x00; x01; x02; x03; x04; x05; x06; x07; x08; x09]
              (withChunkSize 1 noOptions) listen newProcessor)
    as [_ Hreturned].
  - reflexivity.
  - reflexivity.
  - destruct (Hreturned
                [x01; x00; x01; x01; x01; x02; x01; x03; x01; x04;
                 x01; x05; x01; x06; x01; x07; x01; x08; x01; x09]
                (snd (compressWithProgress storeCompress sampleClock 11
                        [x00; x01; x02; x03; x04; x05; x06; x07; x08; x09]
                        (withChunkSize 1 noOptions) (Some listen)
                        newProcessor)))
      as (_ & _ & Hprog & _ & _ & _ & _ & Hlast).
    + vm_compute. reflexivity.
    + split; [rewrite Hprog, map_map; reflexivity | exact Hlast].
Defined.


(** * Further properties *)

(** ** What the loop does to the outside *)

Section LoopEvents.

Variable brotliCompress : bytes -> EncodeOptions -> CodecResult.
Variable data : bytes.
Variables quality mode chunkSize lgwin : Z.
Variable progressCallback : option Callback.

Local Abbreviation o := (mkEncodeOptions mode quality lgwin).
Local Abbreviation chunkOf := (chunkAt data chunkSize).
Local Abbreviation outputOf :=
  (compressedAt brotliCompress data quality mode chunkSize lgwin).
Local Abbreviation fractionOf := (progressAt data chunkSize).
Local Abbreviation passOf :=
  (passEvents brotliCompress data quality mode chunkSize lgwin
     progressCallback).
Local Abbreviation ofPass :=
  (eventOfPass brotliCompress data quality mode chunkSize lgwin
     progressCallback).

(** However the loop ends, each of its events belongs to the pass at one
    of its indices, and a callback call that throws ends it with the
    callback's error. *)
Lemma streamLoop_events (fuel : nat) :
  forall (i : Z) (chunks : list (option bytes)) (s : State),
  exists evs,
    snd (streamLoop brotliCompress fuel data quality mode chunkSize lgwin
           progressCallback i chunks s) = addEvents evs s
    /\ (forall e, In e evs ->
                  exists j, In j (loopIndices fuel (len data) chunkSize i)
                            /\ ofPass j e)
    /\ (forall f p k msg,
           progressCallback = Some f ->
           In (EvProgress p k) evs ->
           f p k = Some msg ->
           fst (streamLoop brotliCompress fuel data quality mode chunkSize
                  lgwin progressCallback i chunks s) = Thrown msg).
Proof.
  induction fuel as [|fuel IH]; intros i chunks s.
  - exists []. simpl. rewrite addEvents_nil.
    split; [reflexivity |]. split; [intros ? [] | intros ? ? ? ? ? []].
  - simpl streamLoop. simpl loopIndices. destruct (i <? len data).
    2:{ exists []. simpl. rewrite addEvents_nil.
        split; [reflexivity |]. split; [intros ? [] | intros ? ? ? ? ? []]. }
    unfold bind. rewrite streamStep_run.
    assert (Henc : ofPass i (EvEncode (chunkOf i) o))
      by (split; reflexivity).
    destruct (brotliCompress (chunkOf i) o) as [output|msg|] eqn:E.
    2:{ exists [EvEncode (chunkOf i) o]. split; [reflexivity |]. split.
        - intros e [<-|[]]. exists i. split; [left; reflexivity | exact Henc].
        - intros f p k msg' _ [H|[]]. discriminate. }
    2:{ destruct (IH (i + chunkSize) (chunks ++ [None])
                     (addEvents (passOf i) s)) as (evs & Hs & Hin & Hthrow).
        destruct progressCallback as [f|] eqn:Ecb.
        - exists [EvEncode (chunkOf i) o]. split; [reflexivity |]. split.
          + intros e [<-|[]]. exists i.
            split; [left; reflexivity | exact Henc].
          + intros f' p k msg' _ [H|[]]. discriminate.
        - eexists. rewrite Hs, addEvents_addEvents.
          split; [reflexivity |]. split.
          + intros e He. apply in_app_or in He. destruct He as [He|He].
            * exists i. split; [left; reflexivity |].
              destruct He as [<-|[<-|[]]]; [exact Henc | exact I].
            * destruct (Hin e He) as (j & Hj & Hp). exists j.
              split; [right; exact Hj | exact Hp].
          + intros f' p k msg' Hf'. discriminate. }
    assert (Hout : outputOf i = output)
      by (unfold compressedAt; now rewrite E).
    assert (Hprog : progressCallback <> None ->
                    ofPass i (EvProgress (fractionOf i) (len output))).
    { intro Hcb. cbn [eventOfPass]. rewrite Hout, E. auto. }
    destruct (IH (i + chunkSize) (chunks ++ [Some output])
                 (addEvents (passOf i) s)) as (evs & Hs & Hin & Hthrow).
    assert (Hpass : forall e, In e (passOf i) -> ofPass i e).
    { intros e He. unfold passEvents in He. destruct He as [<-|He];
        [exact Henc |].
      apply in_app_or in He. destruct He as [He|[<-|[]]]; [| exact I].
      destruct progressCallback as [f|] eqn:Ecb; [| destruct He].
      destruct He as [<-|[]]. rewrite Hout. apply Hprog. discriminate. }
    assert (Hall : forall e, In e (passOf i ++ evs) ->
               exists j,
                 In j (i :: loopIndices fuel (len data) chunkSize
                              (i + chunkSize))
                 /\ ofPass j e).
    { intros e He. apply in_app_or in He. destruct He as [He|He].
      - exists i. split; [left; reflexivity | apply Hpass; exact He].
      - destruct (Hin e He) as (j & Hj & Hp). exists j.
        split; [right; exact Hj | exact Hp]. }
    destruct progressCallback as [f|] eqn:Ecb.
    + destruct (f (fractionOf i) (len output)) as [msg|] eqn:Ef.
      * exists [EvEncode (chunkOf i) o; EvProgress (fractionOf i) (len output)].
        split; [reflexivity |]. split.
        -- intros e [<-|[<-|[]]]; exists i;
             (split; [left; reflexivity |]);
             [exact Henc | apply Hprog; discriminate].
        -- intros f' p k msg' Hf' [He|[He|[]]] Hmsg; [discriminate |].
           inversion Hf'; subst f'. inversion He; subst p k.
           simpl. congruence.
      * eexists. rewrite Hs, addEvents_addEvents.
        split; [reflexivity |]. split; [exact Hall |].
        intros f' p k msg' Hf' He Hmsg. apply in_app_or in He.
        destruct He as [He|He]; [| eapply Hthrow; eassumption].
        exfalso. inversion Hf'; subst f'. unfold passEvents in He.
        destruct He as [He|[He|[He|[]]]]; try discriminate.
        inversion He; subst p k. rewrite Hout in Hmsg. congruence.
    + eexists. rewrite Hs, addEvents_addEvents.
      split; [reflexivity |]. split; [exact Hall |].
      intros f' p k msg' Hf'. discriminate.
Qed.

End LoopEvents.

(** ** The chunks *)

Lemma loopIndices_bounds (n chunkSize : Z) (fuel : nat) :
  0 <= chunkSize ->
  forall i j, In j (loopIndices fuel n chunkSize i) -> i <= j < n.
Proof.
  intro Hc. induction fuel as [|fuel IH]; intros i j Hj; simpl in Hj.
  - destruct Hj.
  - destruct (i <? n) eqn:E; [| destruct Hj].
    apply Z.ltb_lt in E. destruct Hj as [<-|Hj]; [lia |].
    apply IH in Hj. lia.
Qed.

Lemma chunkStarts_bounds (n chunkSize j : Z) :
  0 <= chunkSize -> In j (chunkStarts n chunkSize) -> 0 <= j < n.
Proof. intros Hc Hj. apply (loopIndices_bounds _ _ _ Hc) in Hj. exact Hj. Qed.

(** A chunk sliced inside the input is the next [chunkSize] bytes, or what
    is left of the input. *)
Lemma chunkAt_inside (data : bytes) (chunkSize j : Z) :
  0 < chunkSize -> 0 <= j < len data ->
  chunkAt data chunkSize j
  = firstn (Z.to_nat chunkSize) (skipn (Z.to_nat j) data).
Proof.
  intros Hc Hj. unfold chunkAt, slice.
  rewrite sliceRange_inside by assumption.
  unfold sublist. cbn [fst snd].
  destruct (Z_le_gt_dec (j + chunkSize) (len data)) as [Hle|Hgt].
  - rewrite Z.min_l by exact Hle. f_equal. lia.
  - rewrite Z.min_r by lia.
    rewrite !firstn_all2; [reflexivity | |];
      rewrite length_skipn; unfold len in *; lia.
Qed.

Lemma chunkAt_length (data : bytes) (chunkSize j : Z) :
  0 < chunkSize -> 0 <= j < len data ->
  len (chunkAt data chunkSize j) = Z.min (j + chunkSize) (len data) - j.
Proof.
  intros Hc Hj. rewrite chunkAt_inside by assumption.
  unfold len in *. rewrite length_firstn, length_skipn. lia.
Qed.

(** Laid end to end, the chunks from index [i] on are the input from [i]
    on. *)
Lemma chunks_from (data : bytes) (chunkSize : Z) (fuel : nat) :
  0 < chunkSize ->
  forall i,
    0 <= i -> len data <= i + Z.of_nat fuel * chunkSize ->
    List.concat (map (chunkAt data chunkSize)
                   (loopIndices fuel (len data) chunkSize i))
    = skipn (Z.to_nat i) data.
Proof.
  intro Hc. induction fuel as [|fuel IH]; intros i Hi Hfuel.
  - simpl in *. rewrite skipn_all2; [reflexivity | unfold len in *; lia].
  - simpl loopIndices. destruct (i <? len data) eqn:E.
    + apply Z.ltb_lt in E. simpl.
      rewrite IH by (rewrite Nat2Z.inj_succ, Z.mul_succ_l in Hfuel; lia).
      rewrite chunkAt_inside by lia.
      replace (Z.to_nat (i + chunkSize))
        with (Z.to_nat chunkSize + Z.to_nat i)%nat by lia.
      rewrite <- skipn_skipn. apply firstn_skipn.
    + apply Z.ltb_ge in E.
      rewrite skipn_all2; [reflexivity | unfold len in *; lia].
Qed.

(** X5.  With a positive chunk size the chunks that [streamCompress] slices
    are, laid end to end, the input: no byte is lost, repeated or moved.
    Each chunk holds at least one byte and at most [chunkSize]. *)
Theorem chunks_rebuild_input (data : bytes) (chunkSize : Z) :
  0 < chunkSize ->
  List.concat (map (fun i => slice data i (i + chunkSize))
                 (chunkStarts (len data) chunkSize)) = data
  /\ Forall (fun i => 0 < len (slice data i (i + chunkSize)) <= chunkSize)
       (chunkStarts (len data) chunkSize).
Proof.
  intro Hc. split.
  - pose proof (len_nonneg data) as Hn.
    apply (chunks_from data chunkSize (Z.to_nat (len data)) Hc 0); nia.
  - apply Forall_forall. intros j Hj.
    apply chunkStarts_bounds in Hj; [| lia].
    change (slice data j (j + chunkSize)) with (chunkAt data chunkSize j).
    rewrite chunkAt_length by assumption. lia.
Qed.

Lemma chunks_rebuild_input_witness :
  List.concat (map (fun i => slice [x0a; x0b; x0c; x0d; x0e] i (i + 2))
                 (chunkStarts (len [x0a; x0b; x0c; x0d; x0e]) 2))
  = [x0a; x0b; x0c; x0d; x0e].
Proof.
  apply (chunks_rebuild_input [x0a; x0b; x0c; x0d; x0e] 2). lia.
Defined.

(** ** Calls seen from outside *)

(** The events of the codec work of a call: on the chunked path each one
    belongs to a pass of the loop, on the other path there is the one
    encoder call; and a callback call that throws ends the work with the
    callback's error. *)
Lemma codecWork_events
    (brotliCompress : bytes -> EncodeOptions -> CodecResult)
    (fuel : nat) (data : bytes) (options : Options)
    (progressCallback : option Callback) (s : State) :
  exists evs,
    snd (codecWork brotliCompress fuel data options progressCallback s)
    = addEvents evs s
    /\ (takesChunkedPath data options = true ->
        forall e, In e evs ->
          exists j,
            In j (loopIndices fuel (len data) (effectiveChunkSize options) 0)
            /\ eventOfPass brotliCompress data
                 (withDefault 6 (quality options))
                 (withDefault 0 (mode options))
                 (effectiveChunkSize options)
                 (withDefault 22 (lgwin options)) progressCallback j e)
    /\ (takesChunkedPath data options = false ->
        evs = [EvEncode data (encodeOptionsOf options)])
    /\ (forall f p k msg,
           progressCallback = Some f ->
           In (EvProgress p k) evs ->
           f p k = Some msg ->
           fst (codecWork brotliCompress fuel data options progressCallback s)
           = Thrown msg).
Proof.
  destruct (takesChunkedPath data options) eqn:Ep.
  - rewrite codecWork_chunked by exact Ep. rewrite streamCompress_run.
    destruct (streamLoop_events brotliCompress data
                (withDefault 6 (quality options))
                (withDefault 0 (mode options))
                (effectiveChunkSize options)
                (withDefault 22 (lgwin options)) progressCallback fuel 0 [] s)
      as (evs & Hs & Hin & Hthrow).
    exists evs.
    destruct (streamLoop brotliCompress fuel data _ _ _ _ progressCallback
                0 [] s) as [[chunks|msg|] s']; simpl in *;
      [destruct (allBytes chunks) | |];
      (split; [exact Hs |]); (split; [intros _; exact Hin |]);
      (split; [discriminate |]);
      intros f p k msg' Hf He Hmsg;
      specialize (Hthrow f p k msg' Hf He Hmsg); congruence.
  - unfold codecWork. rewrite Ep, callCompress_run.
    exists [EvEncode data (encodeOptionsOf options)].
    split; [reflexivity |]. split; [discriminate |].
    split; [reflexivity |].
    intros f p k msg _ [H|[]]. discriminate.
Qed.

(** The fraction reported at an index inside the input lies in (0, 1]. *)
Lemma progressAt_range (data : bytes) (chunkSize j : Z) :
  0 < chunkSize -> 0 <= j < len data ->
  (0 < progressAt data chunkSize j <= 1)%Q.
Proof.
  intros Hc Hj. unfold progressAt. split.
  - apply Q.min_glb_lt; [| reflexivity].
    apply Qlt_shift_div_l.
    + change 0%Q with (inject_Z 0). rewrite <- Zlt_Qlt. lia.
    + rewrite Qmult_0_l. change 0%Q with (inject_Z 0).
      rewrite <- Zlt_Qlt. lia.
  - apply Q.le_min_r.
Qed.

(** ** Decompression *)

(** X1.  [decompress] is single-shot: whatever the buffer and wherever it
    came from, it calls the decoder once, on the whole buffer, and does
    nothing else to the outside.  Its result is the decoder's output; an
    error of the decoder comes back as "Decompression failed: " followed by
    its message, and then the metrics are left as they were. *)
Theorem decompress_single_shot
    (brotliDecompress : bytes -> DecodeResult) (clock : nat -> Q)
    (compressedData : bytes) (s : State) :
  emitted s (snd (decompress brotliDecompress clock compressedData s))
  = [EvDecode compressedData]
  /\ fst (decompress brotliDecompress clock compressedData s)
     = match brotliDecompress compressedData with
       | DecodeOk decompressedData => Returned decompressedData
       | DecodeError msg => Thrown ("Decompression failed: " ++ msg)%string
       end
  /\ forall msg,
       brotliDecompress compressedData = DecodeError msg ->
       performanceMetrics
         (snd (decompress brotliDecompress clock compressedData s))
       = performanceMetrics s.
Proof.
  rewrite decompress_run.
  destruct (brotliDecompress compressedData) as [out|msg'].
  - split; [apply emitted_of_trace; reflexivity |].
    split; [reflexivity | discriminate].
  - split; [apply emitted_of_trace; reflexivity |].
    split; reflexivity.
Qed.

(** ** Failures of a call *)

(** X2.  If a call of the progress callback made during
    [compressWithProgress] throws, the whole call fails with
    "Compression failed: " followed by the callback's message, and the
    metrics are what they were before the call. *)
Theorem callback_failure_fails_compress
    (brotliCompress : bytes -> EncodeOptions -> CodecResult) (clock : nat -> Q)
    (fuel : nat) (data : bytes) (options : Options) (f : Callback)
    (s : State) (progress : Q) (n : Z) (msg : string) :
  In (EvProgress progress n)
     (emitted s (snd (compressWithProgress brotliCompress clock fuel data
                        options (Some f) s))) ->
  f progress n = Some msg ->
  fst (compressWithProgress brotliCompress clock fuel data options (Some f) s)
  = Thrown ("Compression failed: " ++ msg)%string
  /\ performanceMetrics
       (snd (compressWithProgress brotliCompress clock fuel data options
               (Some f) s))
     = performanceMetrics s.
Proof.
  rewrite compress_emitted, compressWithProgress_run.
  destruct (codecWork_events brotliCompress fuel data options (Some f)
              (tick s)) as (evs & Hs & _ & _ & Hthrow).
  rewrite Hs, emitted_addEvents. intros Hin Hmsg.
  specialize (Hthrow f progress n msg eq_refl Hin Hmsg).
  destruct (codecWork brotliCompress fuel data options (Some f) (tick s))
    as [[[out|]|cause|] s']; simpl in *; try discriminate.
  inversion Hthrow; subst. split; reflexivity.
Qed.

Lemma callback_failure_fails_compress_witness :
  fst (compressWithProgress storeCompress sampleClock 9
         [x0a; x0b; x0c; x0d; x0e; x0f] (withChunkSize 1 noOptions)
         (Some impatient) newProcessor)
  = Thrown "Compression failed: enough"
  /\ performanceMetrics
       (snd (compressWithProgress storeCompress sampleClock 9
               [x0a; x0b; x0c; x0d; x0e; x0f] (withChunkSize 1 noOptions)
               (Some impatient) newProcessor))
     = initialMetrics.
Proof.
  apply (callback_failure_fails_compress storeCompress sampleClock 9
           [x0a; x0b; x0c; x0d; x0e; x0f] (withChunkSize 1 noOptions)
           impatient newProcessor (3 # 6) 2 "enough").
  - vm_compute. right. right. right. right. right. right. right.
    left. reflexivity.
  - reflexivity.
Defined.

(** X3.  A call of [decompress] that does not return leaves the metrics
    as they were, and so does a call of [compressWithProgress] that does
    not return, because something threw or because the loop never ends,
    with one exception: when the input goes to the encoder whole and the
    encoder hands back [null], lines 30 and 31 have run when line 32 throws
    on reading the [length] of [null].  That call fails with the wrapped
    [TypeError], and it has written [compressionTime] and [originalSize]
    and left [compressedSize] as it was. *)
Theorem failed_call_metrics
    (brotliCompress : bytes -> EncodeOptions -> CodecResult)
    (brotliDecompress : bytes -> DecodeResult) (clock : nat -> Q)
    (fuel : nat) (data : bytes) (options : Options)
    (progressCallback : option Callback) (compressedData : bytes)
    (s : State) :
  (takesChunkedPath data options = true
   \/ brotliCompress data (encodeOptionsOf options) <> CodecNull ->
   (forall artifact,
       fst (compressWithProgress brotliCompress clock fuel data options
              progressCallback s) <> Returned artifact) ->
   performanceMetrics
     (snd (compressWithProgress brotliCompress clock fuel data options
             progressCallback s))
   = performanceMetrics s)
  /\ (takesChunkedPath data options = false ->
      brotliCompress data (encodeOptionsOf options) = CodecNull ->
      fst (compressWithProgress brotliCompress clock fuel data options
             progressCallback s)
      = Thrown ("Compression failed: " ++ nullLengthError)%string
      /\ performanceMetrics
           (snd (compressWithProgress brotliCompress clock fuel data options
                   progressCallback s))
         = mkMetrics (clock (S (clockReads s)) - clock (clockReads s))%Q
             (decompressionTime (performanceMetrics s))
             (len data) (compressedSize (performanceMetrics s)))
  /\ ((forall decompressedData,
          fst (decompress brotliDecompress clock compressedData s)
          <> Returned decompressedData) ->
      performanceMetrics
        (snd (decompress brotliDecompress clock compressedData s))
      = performanceMetrics s).
Proof.
  split; [| split].
  - intros Hcase Hnr.
    destruct (takesChunkedPath data options) eqn:Ep.
    + rewrite compressWithProgress_run in *.
      destruct (codecWork_frame brotliCompress fuel data options
                  progressCallback (tick s)) as (evs & Hs & _).
      rewrite codecWork_chunked in * by exact Ep.
      destruct (streamCompress brotliCompress fuel data _ _ _ _
                  progressCallback (tick s)) as [[out|msg|] s'];
        simpl in *; subst; try reflexivity.
      destruct (Hnr out eq_refl).
    + destruct Hcase as [Hcase|Hcase]; [discriminate |].
      rewrite compressWithProgress_one_shot in * by exact Ep.
      destruct (brotliCompress data (encodeOptionsOf options))
        as [output|msg|]; simpl in *.
      * destruct (Hnr output eq_refl).
      * reflexivity.
      * destruct (Hcase eq_refl).
  - intros Ep En. rewrite compressWithProgress_one_shot by exact Ep.
    rewrite En. split; reflexivity.
  - rewrite decompress_run.
    destruct (brotliDecompress compressedData) as [out|msg]; simpl.
    + intro Hnr. destruct (Hnr out eq_refl).
    + reflexivity.
Qed.

(** A processor that has compressed two bytes into three is given a buffer
    for which the encoder hands back [null]: the call fails, and from then
    on [getMetrics] reports the time and the input size of the failed call
    next to the output size of the call before. *)
Lemma failed_call_metrics_witness :
  fst (compressWithProgress nullingCompress sampleClock 0
         [xff; x01; x02; x03; x04] noOptions None
         (snd (compressWithProgress nullingCompress sampleClock 0 [x07; x08]
                 noOptions None newProcessor)))
  = Thrown ("Compression failed: " ++ nullLengthError)%string
  /\ performanceMetrics
       (snd (compressWithProgress nullingCompress sampleClock 0
               [xff; x01; x02; x03; x04] noOptions None
               (snd (compressWithProgress nullingCompress sampleClock 0
                       [x07; x08] noOptions None newProcessor))))
     = mkMetrics (sampleClock 3 - sampleClock 2)%Q 0%Q 5 3
  /\ performanceMetrics
       (snd (compressWithProgress nullingCompress sampleClock 0 [x07; x08]
               noOptions None newProcessor))
     = mkMetrics (sampleClock 1 - sampleClock 0)%Q 0%Q 2 3.
Proof.
  destruct (failed_call_metrics nullingCompress storeDecompress sampleClock 0
              [xff; x01; x02; x03; x04] noOptions None []
              (snd (compressWithProgress nullingCompress sampleClock 0
                      [x07; x08] noOptions None newProcessor)))
    as (_ & H & _).
  destruct H as [Hthrown Hmetrics].
  - reflexivity.
  - reflexivity.
  - split; [exact Hthrown |]. split; [exact Hmetrics | reflexivity].
Defined.

(** ** Bounds on what is handed out *)

(** X6.  With a positive chunk size, every buffer that
    [compressWithProgress] hands to the encoder is at most [chunkSize]
    bytes long, and every encoder call gets the same options, however the
    call ends. *)
Theorem encoder_input_bounded
    (brotliCompress : bytes -> EncodeOptions -> CodecResult) (clock : nat -> Q)
    (fuel : nat) (data : bytes) (options : Options)
    (progressCallback : option Callback) (s : State) :
  0 < effectiveChunkSize options ->
  Forall (fun call => len (fst call) <= effectiveChunkSize options
                      /\ snd call = encodeOptionsOf options)
    (encodeCalls
       (emitted s (snd (compressWithProgress brotliCompress clock fuel data
                          options progressCallback s)))).
Proof.
  intro Hc. rewrite compress_emitted.
  destruct (codecWork_events brotliCompress fuel data options
              progressCallback (tick s)) as (evs & Hs & Hchunked & Hone & _).
  rewrite Hs, emitted_addEvents. apply Forall_forall.
  intros [c o] Hin. apply in_encodeCalls in Hin. cbn [fst snd].
  destruct (takesChunkedPath data options) eqn:E.
  - destruct (Hchunked eq_refl _ Hin) as (j & Hj & Hc' & Ho).
    apply loopIndices_bounds in Hj; [| lia]. subst c o.
    rewrite chunkAt_length by lia. split; [lia | reflexivity].
  - rewrite (Hone eq_refl) in Hin. destruct Hin as [H|[]].
    inversion H; subst. split; [| reflexivity].
    apply one_shot_fits; assumption.
Qed.

Lemma encoder_input_bounded_witness :
  Forall (fun call => len (fst call) <= 2
                      /\ snd call = mkEncodeOptions 0 6 22)
    (encodeCalls
       (emitted newProcessor
          (snd (compressWithProgress pickyCompress sampleClock 9
                  [x0a; x0b; x0c; xff; x0e] (withChunkSize 2 noOptions)
                  None newProcessor)))).
Proof.
  apply (encoder_input_bounded pickyCompress sampleClock 9
           [x0a; x0b; x0c; xff; x0e] (withChunkSize 2 noOptions) None
           newProcessor).
  reflexivity.
Defined.

(** X7.  With a positive chunk size, every fraction the callback is given
    lies in (0, 1] and every size it is given is the length of a buffer,
    however the call ends. *)
Theorem progress_arguments_in_range
    (brotliCompress : bytes -> EncodeOptions -> CodecResult) (clock : nat -> Q)
    (fuel : nat) (data : bytes) (options : Options)
    (progressCallback : option Callback) (s : State) :
  0 < effectiveChunkSize options ->
  Forall (fun call => (0 < fst call <= 1)%Q /\ 0 <= snd call)
    (progressCalls
       (emitted s (snd (compressWithProgress brotliCompress clock fuel data
                          options progressCallback s)))).
Proof.
  intro Hc. rewrite compress_emitted.
  destruct (codecWork_events brotliCompress fuel data options
              progressCallback (tick s)) as (evs & Hs & Hchunked & Hone & _).
  rewrite Hs, emitted_addEvents. apply Forall_forall.
  intros [p k] Hin. apply in_progressCalls in Hin. cbn [fst snd].
  destruct (takesChunkedPath data options) eqn:E.
  - destruct (Hchunked eq_refl _ Hin) as (j & Hj & _ & Hp & Hk & _).
    apply loopIndices_bounds in Hj; [| lia]. subst p k.
    split; [apply progressAt_range; lia | apply len_nonneg].
  - rewrite (Hone eq_refl) in Hin. destruct Hin as [H|[]]. discriminate.
Qed.

Lemma progress_arguments_in_range_witness :
  Forall (fun call => (0 < fst call <= 1)%Q /\ 0 <= snd call)
    (progressCalls
       (emitted newProcessor
          (snd (compressWithProgress pickyCompress sampleClock 9
                  [x0a; x0b; x0c; xff; x0e] (withChunkSize 2 noOptions)
                  (Some listen) newProcessor)))).
Proof.
  apply (progress_arguments_in_range pickyCompress sampleClock 9
           [x0a; x0b; x0c; xff; x0e] (withChunkSize 2 noOptions)
           (Some listen) newProcessor).
  reflexivity.
Defined.

(** ** The artifact of the chunked path *)

Lemma len_concat {A} (l : list (list A)) :
  len (List.concat l) = fold_right Z.add 0 (map len l).
Proof.
  induction l as [|x l IH]; [reflexivity |].
  simpl. rewrite len_app, IH. reflexivity.
Qed.

Lemma takesChunkedPath_intro (data : bytes) (options : Options) :
  0 < effectiveChunkSize options ->
  effectiveChunkSize options < len data ->
  takesChunkedPath data options = true.
Proof.
  intros Hc Hlt. unfold takesChunkedPath, truthy.
  apply andb_true_intro. split.
  - apply negb_true_iff, Z.eqb_neq. lia.
  - rewrite Z.gtb_ltb. apply Z.ltb_lt. exact Hlt.
Qed.

(** X4.  On the chunked path, with or without a callback, the artifact of
    a call that returns is the outputs of the encoder for the chunks, in
    order and laid end to end with nothing between them; the encoder
    accepted every chunk; and the metrics hold the length of the input and
    the sum of the lengths of the outputs. *)
Theorem chunked_artifact_is_concatenation
    (brotliCompress : bytes -> EncodeOptions -> CodecResult) (clock : nat -> Q)
    (fuel : nat) (data : bytes) (options : Options)
    (progressCallback : option Callback) (s s' : State) (artifact : bytes) :
  0 < effectiveChunkSize options ->
  effectiveChunkSize options < len data ->
  compressWithProgress brotliCompress clock fuel data options
    progressCallback s = (Returned artifact, s') ->
  let chunkSize := effectiveChunkSize options in
  let o := encodeOptionsOf options in
  let starts := chunkStarts (len data) chunkSize in
  let output := compressedAt brotliCompress data
                  (withDefault 6 (quality options))
                  (withDefault 0 (mode options)) chunkSize
                  (withDefault 22 (lgwin options)) in
  artifact = List.concat (map output starts)
  /\ Forall (fun i => brotliCompress (slice data i (i + chunkSize)) o
                      = CodecOk (output i)) starts
  /\ encodeCalls (emitted s s')
     = map (fun i => (slice data i (i + chunkSize), o)) starts
  /\ originalSize (performanceMetrics s') = len data
  /\ compressedSize (performanceMetrics s')
     = fold_right Z.add 0 (map (fun i => len (output i)) starts).
Proof.
  intros Hc Hlt Hrun. cbv zeta.
  pose proof (takesChunkedPath_intro data options Hc Hlt) as Hpath.
  pose proof (compress_returned _ _ _ _ _ _ _ _ _ Hrun) as [Hm _].
  rewrite compressWithProgress_run, codecWork_chunked in Hrun by exact Hpath.
  destruct (streamCompress brotliCompress fuel data _ _ _ _ progressCallback
              (tick s)) as [[out|msg|] s1] eqn:E; try discriminate.
  inversion Hrun; subst.
  apply streamCompress_returned in E; [| exact Hc].
  destruct E as (-> & -> & Hall).
  split; [reflexivity |]. split; [exact Hall |]. split.
  - erewrite emitted_of_trace by reflexivity.
    apply encodeCalls_passes.
  - rewrite Hm. cbn [originalSize compressedSize].
    split; [reflexivity |]. rewrite len_concat, map_map. reflexivity.
Qed.

Lemma chunked_artifact_is_concatenation_witness :
  [x01; x0a; x0b; x01; x0c; x0d; x01; x0e]
  = List.concat
      (map (compressedAt storeCompress [x0a; x0b; x0c; x0d; x0e] 6 0 2 22)
         (chunkStarts 5 2)).
Proof.
  apply (chunked_artifact_is_concatenation storeCompress sampleClock 9
           [x0a; x0b; x0c; x0d; x0e] (withChunkSize 2 noOptions) None
           newProcessor
           (snd (compressWithProgress storeCompress sampleClock 9
                   [x0a; x0b; x0c; x0d; x0e] (withChunkSize 2 noOptions)
                   None newProcessor))).
  - reflexivity.
  - reflexivity.
  - vm_compute. reflexivity.
Defined.

(** ** The first chunk that fails *)

Section FirstFailure.

Variable brotliCompress : bytes -> EncodeOptions -> CodecResult.
Variable data : bytes.
Variables quality mode chunkSize lgwin : Z.
Variable progressCallback : option Callback.

Local Abbreviation o := (mkEncodeOptions mode quality lgwin).
Local Abbreviation chunkOf := (chunkAt data chunkSize).
Local Abbreviation passOf :=
  (passEvents brotliCompress data quality mode chunkSize lgwin
     progressCallback).

(** If the encoder accepts the chunks at the indices [before], the
    callback does not throw, and at the next index [j] the encoder throws,
    or hands back [null] to a loop that has a callback to report its
    [length] to, the loop makes full passes at [before], calls the encoder
    at [j] and ends there with that error. *)
Lemma streamLoop_stops (j : Z) (after : list Z) (msg : string) :
  (forall f p n, progressCallback = Some f -> f p n = None) ->
  brotliCompress (chunkOf j) o = CodecError msg
  \/ (brotliCompress (chunkOf j) o = CodecNull
      /\ progressCallback <> None /\ msg = nullLengthError) ->
  forall (before : list Z) (fuel : nat) (i : Z)
         (chunks : list (option bytes)) (s : State),
    loopIndices fuel (len data) chunkSize i = before ++ j :: after ->
    Forall (fun i => exists output, brotliCompress (chunkOf i) o = CodecOk output)
      before ->
    streamLoop brotliCompress fuel data quality mode chunkSize lgwin
      progressCallback i chunks s
    = (Thrown msg,
       addEvents (flat_map passOf before ++ [EvEncode (chunkOf j) o]) s).
Proof.
  intros Hquiet Hfail.
  induction before as [|b before IH]; intros fuel i chunks s Hidx Hok;
    (destruct fuel as [|fuel]; simpl loopIndices in Hidx;
     [destruct (app_cons_not_nil _ _ _ Hidx) |]);
    (destruct (i <? len data) eqn:E;
     [| destruct (app_cons_not_nil _ _ _ Hidx)]);
    inversion Hidx as [[Hi Hrest]]; subst i;
    simpl streamLoop; rewrite E; unfold bind; rewrite streamStep_run.
  - destruct Hfail as [Hfail|(Hfail & Hcb & ->)]; rewrite Hfail;
      [reflexivity |].
    destruct progressCallback as [f|]; [reflexivity | destruct (Hcb eq_refl)].
  - inversion Hok as [|? ? [output Hb] Hok']; subst.
    rewrite Hb.
    pose proof (IH fuel (b + chunkSize) (chunks ++ [Some output])
                  (addEvents (passOf b) s) Hrest Hok') as Hnext.
    rewrite addEvents_addEvents, app_assoc in Hnext.
    change (flat_map passOf (b :: before))
      with (passOf b ++ flat_map passOf before).
    destruct progressCallback as [f|] eqn:Ecb; [| exact Hnext].
    rewrite (Hquiet f _ _ eq_refl). exact Hnext.
Qed.

End FirstFailure.

(** X8.  A chunked call stops at the first chunk on which the encoder
    throws, and, when there is a callback, at the first chunk for which it
    hands back [null]: if the encoder accepts the chunks before index [j],
    the callback does not throw, and at [j] the encoder throws (or hands
    back [null] while a callback is there, so that line 53 throws the
    [TypeError]), then the call fails with "Compression failed: " followed
    by that error's message, and the encoder has been called for the chunks
    up to and including [j] and for none after it. *)
Theorem compress_stops_at_first_failure
    (brotliCompress : bytes -> EncodeOptions -> CodecResult) (clock : nat -> Q)
    (fuel : nat) (data : bytes) (options : Options)
    (progressCallback : option Callback) (s : State)
    (before after : list Z) (j : Z) (msg : string) :
  0 < effectiveChunkSize options ->
  effectiveChunkSize options < len data ->
  chunkCount (len data) (effectiveChunkSize options) < Z.of_nat fuel ->
  chunkStarts (len data) (effectiveChunkSize options) = before ++ j :: after ->
  Forall (fun i => exists output,
              brotliCompress (slice data i (i + effectiveChunkSize options))
                (encodeOptionsOf options) = CodecOk output) before ->
  (forall f p n, progressCallback = Some f -> f p n = None) ->
  brotliCompress (slice data j (j + effectiveChunkSize options))
    (encodeOptionsOf options) = CodecError msg
  \/ (brotliCompress (slice data j (j + effectiveChunkSize options))
        (encodeOptionsOf options) = CodecNull
      /\ progressCallback <> None /\ msg = nullLengthError) ->
  fst (compressWithProgress brotliCompress clock fuel data options
         progressCallback s)
  = Thrown ("Compression failed: " ++ msg)%string
  /\ encodeCalls
       (emitted s (snd (compressWithProgress brotliCompress clock fuel data
                          options progressCallback s)))
     = map (fun i => (slice data i (i + effectiveChunkSize options),
                      encodeOptionsOf options)) (before ++ [j]).
Proof.
  intros Hc Hlt Hfuel Hidx Hok Hquiet Hfail.
  pose proof (takesChunkedPath_intro data options Hc Hlt) as Hpath.
  pose proof (len_nonneg data) as Hn.
  pose proof (chunkCount_ceiling (len data) _ Hc) as Hceil.
  rewrite <- (loopIndices_enough _ _ fuel Hc) in Hidx by nia.
  pose proof (streamLoop_stops brotliCompress data
                (withDefault 6 (quality options))
                (withDefault 0 (mode options))
                (effectiveChunkSize options)
                (withDefault 22 (lgwin options)) progressCallback
                j after msg Hquiet Hfail before fuel 0 [] (tick s) Hidx Hok)
    as Hrun.
  rewrite compress_emitted, compressWithProgress_run.
  rewrite codecWork_chunked by exact Hpath. rewrite streamCompress_run, Hrun.
  split; [reflexivity |].
  cbn [snd]. rewrite emitted_addEvents, encodeCalls_app, encodeCalls_passes.
  rewrite map_app. reflexivity.
Qed.

(** Four chunks and a callback; for the second the encoder hands back
    [null]. *)
Lemma compress_stops_at_first_failure_witness :
  fst (compressWithProgress nullingCompress sampleClock 9
         [x0a; xff; x0c; x0d] (withChunkSize 1 noOptions) (Some listen)
         newProcessor)
  = Thrown ("Compression failed: " ++ nullLengthError)%string
  /\ encodeCalls
       (emitted newProcessor
          (snd (compressWithProgress nullingCompress sampleClock 9
                  [x0a; xff; x0c; x0d] (withChunkSize 1 noOptions)
                  (Some listen) newProcessor)))
     = [([x0a], mkEncodeOptions 0 6 22); ([xff], mkEncodeOptions 0 6 22)].
Proof.
  apply (compress_stops_at_first_failure nullingCompress sampleClock 9
           [x0a; xff; x0c; x0d] (withChunkSize 1 noOptions) (Some listen)
           newProcessor [0] [2; 3] 1 nullLengthError).
  - reflexivity.
  - reflexivity.
  - reflexivity.
  - reflexivity.
  - repeat constructor. eexists. reflexivity.
  - intros f p n H. inversion H. reflexivity.
  - right. split; [reflexivity |]. split; [discriminate | reflexivity].
Defined.

(** ** A [null] chunk and no callback *)

(** Without a callback nothing in the loop looks at what the encoder handed
    back: as long as the encoder does not throw, the loop runs to its
    return. *)
Lemma streamLoop_unwatched
    (brotliCompress : bytes -> EncodeOptions -> CodecResult) (data : bytes)
    (quality mode chunkSize lgwin : Z) (fuel : nat) :
  forall (i : Z) (chunks : list (option bytes)) (s : State),
    len data <= i + Z.of_nat fuel * chunkSize ->
    Forall (fun i => forall msg,
                brotliCompress (chunkAt data chunkSize i)
                  (mkEncodeOptions mode quality lgwin) <> CodecError msg)
      (loopIndices fuel (len data) chunkSize i) ->
    exists chunks' s',
      streamLoop brotliCompress (S fuel) data quality mode chunkSize lgwin
        None i chunks s = (Returned chunks', s').
Proof.
  induction fuel as [|fuel IH]; intros i chunks s Hfuel Hok.
  - simpl in *. destruct (i <? len data) eqn:E;
      [apply Z.ltb_lt in E; lia |].
    exists chunks, s. reflexivity.
  - change (loopIndices (S fuel) (len data) chunkSize i)
      with (if i <? len data
            then i :: loopIndices fuel (len data) chunkSize (i + chunkSize)
            else []) in Hok.
    change (streamLoop brotliCompress (S (S fuel)) data quality mode
              chunkSize lgwin None i chunks s)
      with ((if i <? len data then
               bind (streamStep brotliCompress data quality mode chunkSize
                       lgwin None i chunks)
                 (fun chunks' =>
                    streamLoop brotliCompress (S fuel) data quality mode
                      chunkSize lgwin None (i + chunkSize) chunks')
             else ret chunks) s).
    destruct (i <? len data) eqn:E; [| exists chunks, s; reflexivity].
    inversion Hok as [|? ? Ho Hrest]; subst.
    assert (Hf : len data <= i + chunkSize + Z.of_nat fuel * chunkSize)
      by (rewrite Nat2Z.inj_succ, Z.mul_succ_l in Hfuel; lia).
    unfold bind. rewrite streamStep_run.
    destruct (brotliCompress (chunkAt data chunkSize i)
                (mkEncodeOptions mode quality lgwin)) as [output|msg|].
    + apply IH; assumption.
    + destruct (Ho msg eq_refl).
    + apply IH; assumption.
Qed.

(** X16.  Without a callback a chunked call does not stop at a chunk for
    which the encoder hands back [null]: line 49 pushes the [null] and the
    loop goes on.  If the encoder throws on no chunk and hands back [null]
    for at least one, the encoder is called for every chunk of the input,
    in order; only then does line 57 throw on reading the [length] of the
    [null], and the call fails with the wrapped [TypeError], the metrics
    being what they were before the call. *)
Theorem null_chunk_fails_after_the_loop
    (brotliCompress : bytes -> EncodeOptions -> CodecResult) (clock : nat -> Q)
    (fuel : nat) (data : bytes) (options : Options) (s : State) :
  0 < effectiveChunkSize options ->
  effectiveChunkSize options < len data ->
  chunkCount (len data) (effectiveChunkSize options) < Z.of_nat fuel ->
  Forall (fun i => forall msg,
              brotliCompress (slice data i (i + effectiveChunkSize options))
                (encodeOptionsOf options) <> CodecError msg)
    (chunkStarts (len data) (effectiveChunkSize options)) ->
  Exists (fun i =>
            brotliCompress (slice data i (i + effectiveChunkSize options))
              (encodeOptionsOf options) = CodecNull)
    (chunkStarts (len data) (effectiveChunkSize options)) ->
  fst (compressWithProgress brotliCompress clock fuel data options None s)
  = Thrown ("Compression failed: " ++ nullLengthError)%string
  /\ encodeCalls
       (emitted s (snd (compressWithProgress brotliCompress clock fuel data
                          options None s)))
     = map (fun i => (slice data i (i + effectiveChunkSize options),
                      encodeOptionsOf options))
         (chunkStarts (len data) (effectiveChunkSize options))
  /\ performanceMetrics
       (snd (compressWithProgress brotliCompress clock fuel data options
               None s))
     = performanceMetrics s.
Proof.
  intros Hc Hlt Hfuel Hok Hnull.
  pose proof (takesChunkedPath_intro data options Hc Hlt) as Hpath.
  pose proof (len_nonneg data) as Hn.
  pose proof (chunkCount_ceiling (len data) _ Hc) as Hceil.
  destruct fuel as [|fuel]; [simpl in Hfuel; lia |].
  assert (Hf : len data <= 0 + Z.of_nat fuel * effectiveChunkSize options)
    by nia.
  rewrite <- (loopIndices_enough _ _ fuel Hc) in Hok by lia.
  destruct (streamLoop_unwatched brotliCompress data
              (withDefault 6 (quality options))
              (withDefault 0 (mode options))
              (effectiveChunkSize options)
              (withDefault 22 (lgwin options)) fuel 0 [] (tick s) Hf Hok)
    as (chunks & s1 & Hrun).
  pose proof (streamLoop_returned brotliCompress data _ _ _ _ None Hc _ _ _ _
                Hrun) as [-> ->].
  assert (Hin : In None
                  (map (pushedAt brotliCompress data
                          (withDefault 6 (quality options))
                          (withDefault 0 (mode options))
                          (effectiveChunkSize options)
                          (withDefault 22 (lgwin options)))
                     (chunkStarts (len data) (effectiveChunkSize options)))).
  { apply Exists_exists in Hnull. destruct Hnull as (i & Hi & En).
    apply in_map_iff. exists i. split; [| exact Hi].
    unfold pushedAt, chunkAt. unfold encodeOptionsOf in En. now rewrite En. }
  rewrite compress_emitted, compressWithProgress_run.
  rewrite codecWork_chunked by exact Hpath.
  rewrite streamCompress_run, Hrun, (allBytes_null _ Hin).
  split; [reflexivity |]. cbn [snd]. split; [| reflexivity].
  rewrite emitted_addEvents.
  apply (encodeCalls_passes brotliCompress data
           (withDefault 6 (quality options)) (withDefault 0 (mode options))
           (effectiveChunkSize options) (withDefault 22 (lgwin options))
           None).
Qed.

(** Five chunks and no callback; for the third the encoder hands back
    [null]: five encoder calls, then the failure. *)
Lemma null_chunk_fails_after_the_loop_witness :
  fst (compressWithProgress nullingCompress sampleClock 9
         [x00; x01; xff; x03; x04] (withChunkSize 1 noOptions) None
         newProcessor)
  = Thrown ("Compression failed: " ++ nullLengthError)%string
  /\ map fst
       (encodeCalls
          (emitted newProcessor
             (snd (compressWithProgress nullingCompress sampleClock 9
                     [x00; x01; xff; x03; x04] (withChunkSize 1 noOptions)
                     None newProcessor))))
     = [[x00]; [x01]; [xff]; [x03]; [x04]].
Proof.
  destruct (null_chunk_fails_after_the_loop nullingCompress sampleClock 9
              [x00; x01; xff; x03; x04] (withChunkSize 1 noOptions)
              newProcessor) as (H1 & H2 & _).
  - reflexivity.
  - reflexivity.
  - reflexivity.
  - change (chunkStarts (len [x00; x01; xff; x03; x04])
              (effectiveChunkSize (withChunkSize 1 noOptions)))
      with [0; 1; 2; 3; 4].
    repeat apply Forall_cons; try apply Forall_nil;
      intros msg E; vm_compute in E; discriminate E.
  - change (chunkStarts (len [x00; x01; xff; x03; x04])
              (effectiveChunkSize (withChunkSize 1 noOptions)))
      with [0; 1; 2; 3; 4].
    right. right. left. reflexivity.
  - split; [exact H1 |]. rewrite H2. vm_compute. reflexivity.
Defined.

(** ** Compressing in chunks and decompressing *)

Lemma stored_chunks_length (data : bytes) (chunkSize : Z) (l : list Z) :
  len (List.concat (map (fun i => x01 :: chunkAt data chunkSize i) l))
  = Z.of_nat (List.length l)
    + len (List.concat (map (chunkAt data chunkSize) l)).
Proof.
  induction l as [|i l IH]; [reflexivity |].
  cbn [map List.concat List.length app].
  rewrite len_cons, !len_app, IH, Nat2Z.inj_succ. lia.
Qed.

(** X9.  A decoder that inverts the encoder is not enough for the chunked
    path.  The storing codec is such a pair; yet for every input longer
    than the chunk size, [compressWithProgress] returns an artifact that
    [decompress] turns into something longer than the input, by one byte
    for every chunk after the first: the headers of the later chunks are
    taken for data. *)
Theorem chunked_roundtrip_breaks
    (clock : nat -> Q) (fuel : nat) (data : bytes) (options : Options)
    (progressCallback : option Callback) (s : State) :
  0 < effectiveChunkSize options ->
  effectiveChunkSize options < len data ->
  chunkCount (len data) (effectiveChunkSize options) < Z.of_nat fuel ->
  (forall f p n, progressCallback = Some f -> f p n = None) ->
  (forall x o, exists y, storeCompress x o = CodecOk y
                         /\ storeDecompress y = DecodeOk x)
  /\ exists artifact s1 restored s2,
       compressWithProgress storeCompress clock fuel data options
         progressCallback s = (Returned artifact, s1)
       /\ decompress storeDecompress clock artifact s1 = (Returned restored, s2)
       /\ len restored
          = len data + chunkCount (len data) (effectiveChunkSize options) - 1
       /\ restored <> data.
Proof.
  intros Hc Hlt Hfuel Hquiet.
  split; [intros x o; exists (x01 :: x); split; reflexivity |].
  pose proof (takesChunkedPath_intro data options Hc Hlt) as Hpath.
  pose proof (len_nonneg data) as Hn.
  pose proof (chunkCount_ceiling (len data) _ Hc) as Hceil.
  destruct (streamCompress_succeeds storeCompress data
              (withDefault 6 (quality options))
              (withDefault 0 (mode options)) (effectiveChunkSize options)
              (withDefault 22 (lgwin options)) progressCallback Hc fuel
              (tick s) Hfuel) as (result & s1 & Hrun).
  { apply Forall_forall. intros i _. eexists. reflexivity. }
  { exact Hquiet. }
  pose proof (streamCompress_returned _ _ _ _ _ _ _ Hc _ _ _ _ Hrun)
    as (_ & Hresult & _).
  change (compressedAt storeCompress data (withDefault 6 (quality options))
            (withDefault 0 (mode options)) (effectiveChunkSize options)
            (withDefault 22 (lgwin options)))
    with (fun i => x01 :: chunkAt data (effectiveChunkSize options) i)
    in Hresult.
  assert (Hlen : len result
                 = chunkCount (len data) (effectiveChunkSize options)
                   + len data).
  { rewrite Hresult, stored_chunks_length.
    rewrite chunkStarts_length by lia.
    pose proof (chunks_from data (effectiveChunkSize options)
                  (Z.to_nat (len data)) Hc 0 ltac:(lia) ltac:(nia)) as Hcat.
    unfold chunkStarts. rewrite Hcat. reflexivity. }
  destruct result as [|h restored].
  { unfold len in Hlen at 1. simpl in Hlen. nia. }
  assert (Hh : h = x01).
  { destruct (chunkStarts (len data) (effectiveChunkSize options));
      simpl in Hresult; [discriminate | congruence]. }
  subst h.
  exists (x01 :: restored).
  rewrite compressWithProgress_run, codecWork_chunked by exact Hpath.
  rewrite Hrun. eexists. exists restored. eexists.
  split; [reflexivity |].
  rewrite decompress_run. simpl storeDecompress.
  split; [reflexivity |].
  rewrite len_cons in Hlen.
  split; [lia |].
  intro Heq. rewrite Heq in Hlen. nia.
Qed.

Lemma chunked_roundtrip_breaks_witness :
  exists artifact s1 restored s2,
    compressWithProgress storeCompress sampleClock 9
      [x0a; x0b; x0c; x0d; x0e] (withChunkSize 2 noOptions) None newProcessor
    = (Returned artifact, s1)
    /\ decompress storeDecompress sampleClock artifact s1
       = (Returned restored, s2)
    /\ len restored = len [x0a; x0b; x0c; x0d; x0e] + chunkCount 5 2 - 1
    /\ restored <> [x0a; x0b; x0c; x0d; x0e].
Proof.
  apply (chunked_roundtrip_breaks sampleClock 9 [x0a; x0b; x0c; x0d; x0e]
           (withChunkSize 2 noOptions) None newProcessor).
  - reflexivity.
  - reflexivity.
  - reflexivity.
  - intros f p n H. discriminate.
Defined.

(** ** What holds in every state of a processor *)

(** What a call of [compressWithProgress] can do to the metrics: nothing;
    or lines 30 to 32, with the length of an artifact as the compressed
    size; or lines 30 and 31 only, the compressed size staying what it
    was. *)
Lemma compress_metrics_cases
    (brotliCompress : bytes -> EncodeOptions -> CodecResult) (clock : nat -> Q)
    (fuel : nat) (data : bytes) (options : Options)
    (progressCallback : option Callback) (s : State) :
  performanceMetrics
    (snd (compressWithProgress brotliCompress clock fuel data options
            progressCallback s)) = performanceMetrics s
  \/ exists size : Z,
       (size = compressedSize (performanceMetrics s)
        \/ exists compressedData : bytes, size = len compressedData)
       /\ performanceMetrics
            (snd (compressWithProgress brotliCompress clock fuel data options
                    progressCallback s))
          = mkMetrics (clock (S (clockReads s)) - clock (clockReads s))%Q
              (decompressionTime (performanceMetrics s))
              (len data) size.
Proof.
  rewrite compressWithProgress_run.
  destruct (codecWork_frame brotliCompress fuel data options
              progressCallback (tick s)) as (evs & Hs & _).
  destruct (codecWork brotliCompress fuel data options progressCallback
              (tick s)) as [[[out|]|msg|] s']; simpl in *; subst; auto.
  - right. exists (len out). split; [right; exists out |]; reflexivity.
  - right. exists (compressedSize (performanceMetrics s)).
    split; [left |]; reflexivity.
Qed.

Lemma decompress_metrics_cases
    (brotliDecompress : bytes -> DecodeResult) (clock : nat -> Q)
    (compressedData : bytes) (s : State) :
  performanceMetrics (snd (decompress brotliDecompress clock compressedData s))
  = performanceMetrics s
  \/ performanceMetrics
       (snd (decompress brotliDecompress clock compressedData s))
     = mkMetrics (compressionTime (performanceMetrics s))
         (clock (S (clockReads s)) - clock (clockReads s))%Q
         (originalSize (performanceMetrics s))
         (compressedSize (performanceMetrics s)).
Proof.
  rewrite decompress_run.
  destruct (brotliDecompress compressedData); simpl; auto.
Qed.

Lemma elapsed_nonnegative (clock : nat -> Q) (k : nat) :
  (forall k, clock k <= clock (S k))%Q ->
  (0 <= clock (S k) - clock k)%Q.
Proof.
  intro Hmono. unfold Qminus. rewrite <- Qle_minus_iff. apply Hmono.
Qed.

(** X10.  In every state that a processor can reach, the two sizes are
    non-negative, whatever calls were made and however they ended.  So the
    ratio of [getMetrics] is always the original size over
    [max(compressedSize, 1)], and it is never negative. *)
Theorem reachable_sizes_nonnegative
    (brotliCompress : bytes -> EncodeOptions -> CodecResult)
    (brotliDecompress : bytes -> DecodeResult) (clock : nat -> Q)
    (s : State) :
  reachable brotliCompress brotliDecompress clock s ->
  0 <= originalSize (performanceMetrics s)
  /\ 0 <= compressedSize (performanceMetrics s)
  /\ compressionRatio (getMetrics s)
     = (inject_Z (originalSize (performanceMetrics s))
        / inject_Z (Z.max (compressedSize (performanceMetrics s)) 1))%Q
  /\ (0 <= compressionRatio (getMetrics s))%Q.
Proof.
  intro Hreach.
  assert (Hsizes : 0 <= originalSize (performanceMetrics s)
                   /\ 0 <= compressedSize (performanceMetrics s)).
  { induction Hreach as [|s fuel data options cb _ IH|s buffer _ IH].
    - simpl. lia.
    - destruct (compress_metrics_cases brotliCompress clock fuel data options
                  cb s) as [-> | (size & Hsize & ->)]; [exact IH |].
      simpl. split; [apply len_nonneg |].
      destruct Hsize as [-> | [out ->]]; [apply IH | apply len_nonneg].
    - destruct (decompress_metrics_cases brotliDecompress clock buffer s)
        as [-> | ->]; exact IH. }
  destruct Hsizes as [Ho Hc].
  assert (Hratio : compressionRatio (getMetrics s)
                   = (inject_Z (originalSize (performanceMetrics s))
                      / inject_Z (Z.max (compressedSize (performanceMetrics s))
                                    1))%Q).
  { unfold getMetrics, orElse, truthy. cbn [compressionRatio].
    destruct (compressedSize (performanceMetrics s) =? 0) eqn:E; simpl.
    - apply Z.eqb_eq in E. rewrite E. reflexivity.
    - apply Z.eqb_neq in E. do 2 f_equal. lia. }
  split; [exact Ho |]. split; [exact Hc |]. split; [exact Hratio |].
  rewrite Hratio. apply Qle_shift_div_l.
  - change 0%Q with (inject_Z 0). rewrite <- Zlt_Qlt. lia.
  - rewrite Qmult_0_l. change 0%Q with (inject_Z 0).
    rewrite <- Zle_Qle. exact Ho.
Qed.

Lemma reachable_sizes_nonnegative_witness :
  0 <= compressedSize
         (performanceMetrics
            (snd (compressWithProgress pickyCompress sampleClock 9
                    [x0a; xff; x0c] (withChunkSize 1 noOptions) None
                    (snd (decompress storeDecompress sampleClock [x02]
                            newProcessor))))).
Proof.
  apply (reachable_sizes_nonnegative pickyCompress storeDecompress sampleClock).
  apply reach_compress. apply reach_decompress. apply reach_new.
Defined.

(** X11.  If the clock never goes backwards, the two times in the metrics
    are non-negative in every state that a processor can reach. *)
Theorem reachable_times_nonnegative
    (brotliCompress : bytes -> EncodeOptions -> CodecResult)
    (brotliDecompress : bytes -> DecodeResult) (clock : nat -> Q)
    (s : State) :
  (forall k, clock k <= clock (S k))%Q ->
  reachable brotliCompress brotliDecompress clock s ->
  (0 <= compressionTime (performanceMetrics s))%Q
  /\ (0 <= decompressionTime (performanceMetrics s))%Q.
Proof.
  intros Hmono Hreach.
  induction Hreach as [|s fuel data options cb _ IH|s buffer _ IH].
  - simpl. split; apply Qle_refl.
  - destruct (compress_metrics_cases brotliCompress clock fuel data options
                cb s) as [-> | (size & _ & ->)]; [exact IH |].
    simpl. split; [apply elapsed_nonnegative; exact Hmono | apply IH].
  - destruct (decompress_metrics_cases brotliDecompress clock buffer s)
      as [-> | ->]; [exact IH |].
    simpl. split; [apply IH | apply elapsed_nonnegative; exact Hmono].
Qed.

Lemma sampleClock_monotone (k : nat) : (sampleClock k <= sampleClock (S k))%Q.
Proof.
  unfold sampleClock. apply Qmult_le_l; [reflexivity |].
  rewrite <- Zle_Qle. lia.
Qed.

Lemma reachable_times_nonnegative_witness :
  (0 <= compressionTime
          (performanceMetrics
             (snd (compressWithProgress storeCompress sampleClock 9
                     [x0a; x0b; x0c] (withChunkSize 1 noOptions) None
                     newProcessor))))%Q.
Proof.
  apply (reachable_times_nonnegative storeCompress storeDecompress
           sampleClock).
  - exact sampleClock_monotone.
  - apply reach_compress. apply reach_new.
Defined.

(** ** A chunk size below 0 *)

Lemma negative_chunkSize_diverges_witness :
  fst (compressWithProgress storeCompress sampleClock 50 [x0a; x0b]
         (withChunkSize (-1) noOptions) None newProcessor) = Diverged.
Proof.
  apply (negative_chunkSize_diverges storeCompress sampleClock 50 [x0a; x0b]
           noOptions (-1) newProcessor).
  - lia.
  - reflexivity.
  - intros chunk o. eexists. reflexivity.
Defined.

(** X13.  With a negative chunk size an empty input goes to the chunked
    branch, whose loop makes no pass: the call returns an empty artifact
    without calling the encoder or the callback, and records the sizes 0
    and 0. *)
Theorem empty_input_negative_chunkSize
    (brotliCompress : bytes -> EncodeOptions -> CodecResult) (clock : nat -> Q)
    (fuel : nat) (options : Options) (chunkSize : Z)
    (progressCallback : option Callback) (s : State) :
  chunkSize < 0 ->
  fst (compressWithProgress brotliCompress clock (S fuel) []
         (withChunkSize chunkSize options) progressCallback s) = Returned []
  /\ emitted s (snd (compressWithProgress brotliCompress clock (S fuel) []
                       (withChunkSize chunkSize options) progressCallback s))
     = []
  /\ originalSize
       (performanceMetrics
          (snd (compressWithProgress brotliCompress clock (S fuel) []
                  (withChunkSize chunkSize options) progressCallback s))) = 0
  /\ compressedSize
       (performanceMetrics
          (snd (compressWithProgress brotliCompress clock (S fuel) []
                  (withChunkSize chunkSize options) progressCallback s))) = 0.
Proof.
  intro Hc.
  assert (Hpath : takesChunkedPath [] (withChunkSize chunkSize options)
                  = true).
  { unfold takesChunkedPath, truthy.
    change (effectiveChunkSize (withChunkSize chunkSize options))
      with chunkSize.
    apply andb_true_intro. split.
    - apply negb_true_iff, Z.eqb_neq. lia.
    - rewrite Z.gtb_ltb. apply Z.ltb_lt. exact Hc. }
  rewrite compressWithProgress_run, codecWork_chunked by exact Hpath.
  rewrite streamCompress_run. simpl.
  split; [reflexivity |]. split; [| split; reflexivity].
  apply emitted_of_trace. simpl. now rewrite app_nil_r.
Qed.

Lemma empty_input_negative_chunkSize_witness :
  fst (compressWithProgress pickyCompress sampleClock 1 []
         (withChunkSize (-4) noOptions) (Some listen) newProcessor)
  = Returned [].
Proof.
  apply (empty_input_negative_chunkSize pickyCompress sampleClock 0 noOptions
           (-4) (Some listen) newProcessor).
  lia.
Defined.

(** ** The example driver *)

Lemma skipn_nth_error {A} (l : list A) :
  forall (i : nat) (x : A) (rest : list A),
    skipn i l = x :: rest <-> nth_error l i = Some x /\ skipn (S i) l = rest.
Proof.
  induction l as [|a l IH]; intros i x rest.
  - rewrite !skipn_nil. destruct i; simpl; split;
      [discriminate | intros [H _]; discriminate
      | discriminate | intros [H _]; discriminate].
  - destruct i as [|i].
    + simpl. split.
      * intro H. inversion H. auto.
      * intros [H1 H2]. congruence.
    + simpl nth_error. rewrite (skipn_cons (S i)), skipn_cons. apply IH.
Qed.

(** The check of line 113 holds exactly when the decompressed bytes are
    the beginning of the sample. *)
Lemma every_matches_prefix (sampleData : bytes) :
  forall (decompressedData : bytes) (i : nat),
    every (fun byte i =>
             match nth_error sampleData i with
             | Some b => Byte.eqb byte b
             | None => false
             end) decompressedData i = true
    <-> exists rest, skipn i sampleData = decompressedData ++ rest.
Proof.
  induction decompressedData as [|x d IH]; intro i.
  - simpl. split; [intros _; eexists; reflexivity | reflexivity].
  - cbn [every]. rewrite andb_true_iff, IH. split.
    + intros [Hx [rest Hrest]]. exists rest.
      destruct (nth_error sampleData i) as [b|] eqn:E; [| discriminate].
      apply byte_dec_bl in Hx. subst b.
      simpl. apply skipn_nth_error. auto.
    + intros [rest Hrest]. simpl in Hrest.
      apply skipn_nth_error in Hrest. destruct Hrest as [Hn Hs].
      rewrite Hn. split; [apply byte_dec_lb; reflexivity |].
      exists rest. exact Hs.
Qed.

(** X14.  The driver never throws and, with fuel for its loop, comes to an
    end whatever the codec does and whatever the sample: every error is
    caught and printed.  The last line of its console is the verdict of the
    verification or the error, and an error it prints is a failed
    compression or a failed decompression. *)
Theorem example_always_completes
    (brotliCompress : bytes -> EncodeOptions -> CodecResult)
    (brotliDecompress : bytes -> DecodeResult) (clock : nat -> Q)
    (fuel : nat) (sampleData : bytes) :
  chunkCount (len sampleData) (512 * 1024) < Z.of_nat fuel ->
  exists s' console,
    runBrotliExample brotliCompress brotliDecompress clock fuel sampleData
    = (Returned tt, s', console)
    /\ ((exists isValid, last console (LogError "") = LogVerification isValid)
        \/ (exists cause,
               last console (LogError "")
               = LogError ("Compression failed: " ++ cause)%string)
        \/ (exists cause,
               last console (LogError "")
               = LogError ("Decompression failed: " ++ cause)%string)).
Proof.
  intro Hfuel. unfold runBrotliExample.
  pose proof (compress_ends brotliCompress clock fuel sampleData
                exampleOptions (Some exampleCallback) newProcessor
                ltac:(reflexivity) Hfuel) as Hend.
  destruct (compressWithProgress brotliCompress clock fuel sampleData
              exampleOptions (Some exampleCallback) newProcessor)
    as [[artifact|msg|] s1] eqn:E; [| | simpl in Hend; congruence].
  - rewrite decompress_run.
    destruct (brotliDecompress artifact) as [restored|cause];
      eexists; eexists; (split; [reflexivity |]); rewrite last_last.
    + left. eexists. reflexivity.
    + right. right. eexists. reflexivity.
  - eexists. eexists. split; [reflexivity |]. rewrite last_last.
    right. left.
    destruct (compress_error_is_wrapped brotliCompress clock fuel sampleData
                exampleOptions (Some exampleCallback) newProcessor msg)
      as [cause ->]; [rewrite E; reflexivity |].
    exists cause. reflexivity.
Qed.

Lemma example_always_completes_witness :
  exists s' console,
    runBrotliExample pickyCompress storeDecompress sampleClock 2
      [xff; x0b; x0c]
    = (Returned tt, s', console)
    /\ ((exists isValid, last console (LogError "") = LogVerification isValid)
        \/ (exists cause,
               last console (LogError "")
               = LogError ("Compression failed: " ++ cause)%string)
        \/ (exists cause,
               last console (LogError "")
               = LogError ("Decompression failed: " ++ cause)%string)).
Proof.
  apply (example_always_completes pickyCompress storeDecompress sampleClock 2
           [xff; x0b; x0c]).
  reflexivity.
Defined.

(** X15.  The verification of the driver only looks at the bytes that came
    out of the decoder: when the driver prints a verdict, the verdict is
    "Success" exactly when the decompressed bytes are the beginning of the
    sample.  Bytes of the sample that were lost at the end go unnoticed; an
    empty result passes. *)
Theorem example_verification_accepts_prefixes
    (brotliCompress : bytes -> EncodeOptions -> CodecResult)
    (brotliDecompress : bytes -> DecodeResult) (clock : nat -> Q)
    (fuel : nat) (sampleData : bytes) (isValid : bool) :
  In (LogVerification isValid)
     (snd (runBrotliExample brotliCompress brotliDecompress clock fuel
             sampleData)) ->
  exists artifact s1 restored,
    compressWithProgress brotliCompress clock fuel sampleData exampleOptions
      (Some exampleCallback) newProcessor = (Returned artifact, s1)
    /\ brotliDecompress artifact = DecodeOk restored
    /\ (isValid = true <-> exists rest, sampleData = restored ++ rest).
Proof.
  unfold runBrotliExample.
  assert (Hlines : forall s b, ~ In (LogVerification b) (progressLines s)).
  { intros s b H. unfold progressLines in H. apply in_map_iff in H.
    destruct H as (call & H & _). discriminate. }
  destruct (compressWithProgress brotliCompress clock fuel sampleData
              exampleOptions (Some exampleCallback) newProcessor)
    as [[artifact|msg|] s1].
  - rewrite decompress_run.
    destruct (brotliDecompress artifact) as [restored|cause] eqn:Ed;
      cbn [snd];
      intro H; repeat (apply in_app_or in H; destruct H as [H|H]);
      try (destruct (Hlines _ _ H));
      try (destruct H as [H|[]]; discriminate).
    destruct H as [H|[]]. inversion H; subst.
    exists artifact, s1, restored.
    split; [reflexivity |]. split; [exact Ed |].
    unfold verifies. rewrite every_matches_prefix. reflexivity.
  - cbn [snd]. intro H. apply in_app_or in H. destruct H as [H|[H|[]]];
      [destruct (Hlines _ _ H) | discriminate].
  - cbn [snd]. intro H. destruct (Hlines _ _ H).
Qed.

(** A decoder that gives back nothing passes the verification. *)
Lemma example_verification_accepts_prefixes_witness :
  In (LogVerification true)
     (snd (runBrotliExample storeCompress (fun _ => DecodeOk []) sampleClock 2
             [x0a; x0b; x0c]))
  /\ exists artifact s1 restored,
       compressWithProgress storeCompress sampleClock 2 [x0a; x0b; x0c]
         exampleOptions (Some exampleCallback) newProcessor
       = (Returned artifact, s1)
       /\ (fun _ : bytes => DecodeOk []) artifact = DecodeOk restored
       /\ (true = true <-> exists rest, [x0a; x0b; x0c] = restored ++ rest).
Proof.
  split; [vm_compute; auto |].
  apply (example_verification_accepts_prefixes storeCompress
           (fun _ => DecodeOk []) sampleClock 2 [x0a; x0b; x0c] true).
  vm_compute. auto.
Defined.
